(** * Parametric layout components of qiskit-metal: a shallow embedding

    The components of this repository ([FluxoniumPocket], [Frame],
    [Markers], [JunctionArray]) are functions from a table of resolved
    options to a list of registered geometry entries and pins.  Lengths
    are Python floats in the design unit (millimetres); they are read here
    as real numbers.  A component build is a computation in a small
    state-and-exception monad whose state is the component's own part of
    the host design: the geometry table and the pin table. *)

From Stdlib Require Import Reals Machin Lra Lia List String ZArith Bool.
From Stdlib Require Import DecimalString.
Import ListNotations.

Local Open Scope R_scope.

(** ** Exceptions and results *)

Module py.

(** The three error classes of the design, and the two Python built-in
    exceptions the component code can meet. *)
Inductive Error : Type :=
| ConfigurationError
| DuplicatePinError
| GeometryError
| ZeroDivisionError
| ValueError.

Inductive Result (A : Type) : Type :=
| Ok (a : A)
| Raise (e : Error).

Arguments Ok {A} a.
Arguments Raise {A} e.

Definition result_map {A B : Type} (f : A -> B) (r : Result A) : Result B :=
  match r with
  | Ok a => Ok (f a)
  | Raise e => Raise e
  end.

(** Float division [a / b]: Python raises on a zero divisor. *)
Definition truediv (a b : R) : Result R :=
  if Req_dec_T b 0 then Raise ZeroDivisionError else Ok (a / b).

(** [int(x)] on a float truncates toward zero. *)
Definition int (x : R) : Z :=
  if Rle_dec 0 x then Int_part x else (- Int_part (- x))%Z.

(** [range(k)] for an integer [k]. *)
Definition range (k : Z) : list nat := seq 0 (Z.to_nat k).

(** ['{:d}'.format(n)] for a non-negative integer. *)
Definition format_d (n : nat) : string :=
  NilEmpty.string_of_uint (Nat.to_uint n).

End py.

Import py.

(** ** The drawing primitives, [qiskit_metal.draw] *)

Module draw.

Definition point : Type := (R * R)%type.

(** A shape is kept as the term that built it; [pts] below gives the set
    of points it covers.  Transforms produce new shapes. *)
#[warnings="-register-all"]
Inductive Shape : Type :=
| Box (xmin ymin xmax ymax : R)
| Disc (c : point) (r : R)
| LineString (ps : list point)
| Union (ss : list Shape)
| Subtract (a b : Shape)
| Rotate (s : Shape) (deg : R)
| Translate (s : Shape) (dx dy : R).

(** Modelled from the spec: [draw.rectangle(w, h, xoff, yoff)], the
    axis-aligned rectangle of width [w] and height [h] centred at
    [(xoff, yoff)]; a non-positive width or height is rejected with a
    [ConfigurationError]. *)
Definition rectangle (w h xoff yoff : R) : Result Shape :=
  if Rlt_dec 0 w then
    if Rlt_dec 0 h then
      Ok (Box (xoff - w / 2) (yoff - h / 2) (xoff + w / 2) (yoff + h / 2))
    else Raise ConfigurationError
  else Raise ConfigurationError.

(** Modelled from the spec: [draw.box(x_min, y_min, x_max, y_max)]; like
    every primitive builder it rejects a non-positive width
    [x_max - x_min] or height [y_max - y_min] with a
    [ConfigurationError]. *)
Definition box (xmin ymin xmax ymax : R) : Result Shape :=
  if Rlt_dec xmin xmax then
    if Rlt_dec ymin ymax then Ok (Box xmin ymin xmax ymax)
    else Raise ConfigurationError
  else Raise ConfigurationError.

(** Modelled from the spec: [draw.Point(x, y).buffer(r)], the circular disc
    from a centre point and a radius. *)
Definition Point_buffer (x y r : R) : Shape := Disc (x, y) r.

(** Modelled from the spec: [draw.union(shapes...)] and
    [draw.subtract(a, b)]; both are total. *)
Definition union (ss : list Shape) : Shape := Union ss.
Definition subtract (a b : Shape) : Shape := Subtract a b.

(** Modelled from the spec: [draw.rotate(s, angle, origin=(0, 0))], the
    rotation by [angle] degrees counterclockwise about the local origin,
    and [draw.translate(s, xoff, yoff)]. *)
Definition rotate (s : Shape) (deg : R) : Shape := Rotate s deg.
Definition translate (s : Shape) (xoff yoff : R) : Shape := Translate s xoff yoff.

(** Both transforms accept a list of shapes and act on every member. *)
Definition rotate_list (ss : list Shape) (deg : R) : list Shape :=
  map (fun s => rotate s deg) ss.
Definition translate_list (ss : list Shape) (xoff yoff : R) : list Shape :=
  map (fun s => translate s xoff yoff) ss.

(** *** Meaning of a shape: the points it covers *)

Definition radians (deg : R) : R := deg * PI / 180.

(** Rotation of a point about the origin, [deg] degrees counterclockwise. *)
Definition rot (deg : R) (p : point) : point :=
  (fst p * cos (radians deg) - snd p * sin (radians deg),
   fst p * sin (radians deg) + snd p * cos (radians deg)).

Definition shift (dx dy : R) (p : point) : point := (fst p + dx, snd p + dy).

Definition on_segment (a b p : point) : Prop :=
  exists t : R, 0 <= t <= 1 /\
    fst p = fst a + t * (fst b - fst a) /\
    snd p = snd a + t * (snd b - snd a).

Fixpoint on_path (ps : list point) (p : point) : Prop :=
  match ps with
  | a :: (b :: _) as rest => on_segment a b p \/ on_path rest p
  | _ => False
  end.

Fixpoint pts (s : Shape) (p : point) : Prop :=
  match s with
  | Box xmin ymin xmax ymax =>
      Rmin xmin xmax <= fst p <= Rmax xmin xmax /\
      Rmin ymin ymax <= snd p <= Rmax ymin ymax
  | Disc c r =>
      (fst p - fst c) * (fst p - fst c) + (snd p - snd c) * (snd p - snd c) <= r * r
      /\ 0 <= r
  | LineString ps => on_path ps p
  | Union ss =>
      (fix any (l : list Shape) : Prop :=
         match l with
         | [] => False
         | s' :: l' => pts s' p \/ any l'
         end) ss
  | Subtract a b => pts a p /\ ~ pts b p
  | Rotate s' deg => pts s' (rot (- deg) p)
  | Translate s' dx dy => pts s' (shift (- dx) (- dy) p)
  end.

(** The rigid placement of a component: rotate about the origin, then
    translate.  [placed deg dx dy local final] says that [final] covers
    exactly the image of [local] under that map. *)
Definition place (deg dx dy : R) (p : point) : point := shift dx dy (rot deg p).

Definition placed (deg dx dy : R) (local final : Shape) : Prop :=
  forall p : point, pts local p <-> pts final (place deg dx dy p).

(** *** Centre and area of axis-aligned rectangles *)

Definition center (s : Shape) : option point :=
  match s with
  | Box xmin ymin xmax ymax => Some ((xmin + xmax) / 2, (ymin + ymax) / 2)
  | _ => None
  end.

Record rect : Type := mkrect { x0 : R; y0 : R; x1 : R; y1 : R }.

Definition rect_area (b : rect) : R :=
  Rmax 0 (x1 b - x0 b) * Rmax 0 (y1 b - y0 b).

Definition rect_inter (a b : rect) : rect :=
  mkrect (Rmax (x0 a) (x0 b)) (Rmax (y0 a) (y0 b))
         (Rmin (x1 a) (x1 b)) (Rmin (y1 a) (y1 b)).

Definition in_rect (b : rect) (p : point) : Prop :=
  x0 b <= fst p <= x1 b /\ y0 b <= snd p <= y1 b.

(** Area of a finite union of axis-aligned rectangles, by inclusion and
    exclusion: the area of [b] joined with [U] is [|b| + |U|] minus the
    area of their intersection, which is again a union of rectangles.  The first argument bounds the recursion by the
    length of the list. *)
Fixpoint rects_area_upto (n : nat) (bs : list rect) : R :=
  match n, bs with
  | S n', b :: bs' =>
      rect_area b + rects_area_upto n' bs'
      - rects_area_upto n' (map (rect_inter b) bs')
  | _, _ => 0
  end.

Definition rects_area (bs : list rect) : R := rects_area_upto (List.length bs) bs.

Definition as_rect (s : Shape) : option rect :=
  match s with
  | Box xmin ymin xmax ymax =>
      Some (mkrect (Rmin xmin xmax) (Rmin ymin ymax) (Rmax xmin xmax) (Rmax ymin ymax))
  | _ => None
  end.

Fixpoint as_rects (ss : list Shape) : option (list rect) :=
  match ss with
  | [] => Some []
  | s :: ss' =>
      match as_rect s, as_rects ss' with
      | Some b, Some bs => Some (b :: bs)
      | _, _ => None
      end
  end.

(** The area of a shape ([shape.area]), for the shapes whose area the
    components' contracts speak of: rectangles, discs, unions of
    axis-aligned rectangles, and their images under rigid motions. *)
Fixpoint area (s : Shape) : option R :=
  match s with
  | Box xmin ymin xmax ymax => Some (Rabs (xmax - xmin) * Rabs (ymax - ymin))
  | Disc _ r => Some (PI * (r * r))
  | LineString _ => Some 0
  | Union ss => option_map rects_area (as_rects ss)
  | Subtract _ _ => None
  | Rotate s' _ => area s'
  | Translate s' _ _ => area s'
  end.

End draw.

(** ** The component interface, [qiskit_metal.qlibrary.core] *)

Module core.

Import draw.

Inductive Kind : Type := poly | path | junction.

Definition Kind_eqb (a b : Kind) : bool :=
  match a, b with
  | poly, poly | path, path | junction, junction => true
  | _, _ => false
  end.

(** The value of [hfss_inductance]: an option string taken as it is, or
    [str(x) + 'nH'] for a float [x]. *)
Inductive Inductance : Type :=
| InductanceStr (s : string)
| InductanceNH (x : R).

(** Keyword arguments of [add_qgeometry].  A keyword that the call does not
    pass is [None]; [subtract] is false unless passed. *)
Record Attrs : Type := mkAttrs {
  subtract : bool;
  layer : option Z;
  chip : option string;
  width : option R;
  hfss_inductance : option Inductance;
  gds_cell_name : option string
}.

Definition kw : Attrs := mkAttrs false None None None None None.

Definition kw_subtract (b : bool) (a : Attrs) : Attrs :=
  mkAttrs b (layer a) (chip a) (width a) (hfss_inductance a) (gds_cell_name a).
Definition kw_layer (l : Z) (a : Attrs) : Attrs :=
  mkAttrs (subtract a) (Some l) (chip a) (width a) (hfss_inductance a) (gds_cell_name a).
Definition kw_chip (c : string) (a : Attrs) : Attrs :=
  mkAttrs (subtract a) (layer a) (Some c) (width a) (hfss_inductance a) (gds_cell_name a).
Definition kw_width (w : R) (a : Attrs) : Attrs :=
  mkAttrs (subtract a) (layer a) (chip a) (Some w) (hfss_inductance a) (gds_cell_name a).
Definition kw_hfss_inductance (i : Inductance) (a : Attrs) : Attrs :=
  mkAttrs (subtract a) (layer a) (chip a) (width a) (Some i) (gds_cell_name a).
Definition kw_gds_cell_name (g : string) (a : Attrs) : Attrs :=
  mkAttrs (subtract a) (layer a) (chip a) (width a) (hfss_inductance a) (Some g).

(** One row of the geometry table. *)
Record QGeometry : Type := mkQGeometry {
  q_kind : Kind;
  q_name : string;
  q_shape : Shape;
  q_attrs : Attrs
}.

Record Pin : Type := mkPin {
  pin_name : string;
  pin_points : list point;
  pin_width : R;
  pin_input_as_norm : bool
}.

(** What one component owns in the host design's tables. *)
Record QComponent : Type := mkQComponent {
  qgeometry : list QGeometry;
  pins : list Pin
}.

Definition empty : QComponent := mkQComponent [] [].

(** A build step: reads and extends the component's tables, or raises. *)
Definition M (A : Type) : Type := QComponent -> Result (A * QComponent).

Definition ret {A : Type} (a : A) : M A := fun st => Ok (a, st).

Definition bind {A B : Type} (m : M A) (k : A -> M B) : M B :=
  fun st =>
    match m st with
    | Ok (a, st') => k a st'
    | Raise e => Raise e
    end.

Definition lift {A : Type} (r : Result A) : M A :=
  fun st =>
    match r with
    | Ok a => Ok (a, st)
    | Raise e => Raise e
    end.

Definition raise {A : Type} (e : Error) : M A := fun _ => Raise e.

Definition when (b : bool) (m : M unit) : M unit := if b then m else ret tt.

(** Modelled from the spec: [self.add_qgeometry(kind, {name: shape, ...},
    **attributes)]; the table is an append-only sink, one row per name of
    the dictionary, in the dictionary's order. *)
Definition add_qgeometry (k : Kind) (geometry : list (string * Shape))
    (a : Attrs) : M unit :=
  fun st =>
    Ok (tt, mkQComponent
              (qgeometry st ++ map (fun ns => mkQGeometry k (fst ns) (snd ns) a) geometry)
              (pins st)).

(** Modelled from the spec: [self.add_pin(name, points, width,
    input_as_norm)]; registering a name twice fails with a
    [DuplicatePinError]. *)
Definition add_pin (name : string) (points : list point) (w : R)
    (input_as_norm : bool) : M unit :=
  fun st =>
    if existsb (String.eqb name) (map pin_name (pins st)) then
      Raise DuplicatePinError
    else
      Ok (tt, mkQComponent (qgeometry st)
                (pins st ++ [mkPin name points w input_as_norm])).

(** Running a component's [make] on empty tables. *)
Definition build (make : M unit) : Result QComponent :=
  match make empty with
  | Ok (_, st) => Ok st
  | Raise e => Raise e
  end.

(** The names registered under one category, in registration order. *)
Definition names_of (k : Kind) (st : QComponent) : list string :=
  map q_name (filter (fun q => Kind_eqb (q_kind q) k) (qgeometry st)).

Definition entries_of (k : Kind) (st : QComponent) : list QGeometry :=
  filter (fun q => Kind_eqb (q_kind q) k) (qgeometry st).

Definition kind_name (q : QGeometry) : Kind * string := (q_kind q, q_name q).

(** The geometry of a build: category, name and shape of every row,
    without the attributes. *)
Definition geometry_of (st : QComponent) : list (Kind * string * Shape) :=
  map (fun q => (q_kind q, q_name q, q_shape q)) (qgeometry st).

Definition shape_named (k : Kind) (n : string) (st : QComponent) : option Shape :=
  option_map q_shape
    (find (fun q => Kind_eqb (q_kind q) k && String.eqb (q_name q) n)
          (qgeometry st)).

End core.

Declare Scope build_scope.
Notation "x <- m ;; k" := (core.bind m (fun x => k))
  (at level 61, m at next level, right associativity) : build_scope.
Notation "m ;;; k" := (core.bind m (fun _ => k))
  (at level 61, right associativity) : build_scope.

Local Open Scope build_scope.
Local Open Scope string_scope.

(** ** [qiskit_metal/qlibrary/qubits/fluxonium_pocket.py] *)

Module FluxoniumPocket.

Import draw core.

Record FluxBiasLineOptions : Type := mkFbl {
  make_fbl : bool;
  fbl_sep : R;
  fbl_height : R;
  fbl_cpw_width : R;
  fbl_cpw_gap : R
}.

Record ChargeLineOptions : Type := mkCl {
  make_cl : bool;
  cl_sep : R;
  cl_cpw_width : R;
  cl_cpw_gap : R
}.

Record ReadoutLineOptions : Type := mkRol {
  make_rol : bool;
  rol_pad_sep : R;
  rol_pad_width : R;
  rol_pad_height : R;
  rol_pad_gap : R;
  rol_cpw_width : R;
  rol_cpw_gap : R
}.

(** The parsed options [self.p].  Lengths are in millimetres and
    [orientation] in degrees.  [l_inductance] and [l_ind_per_square] hold
    the float read from the option once its ['nH'] suffix is removed
    ([float(p.l_inductance.replace('nH', ''))]); [L_j] stays a string. *)
Record Options : Type := mkOptions {
  chip : string;
  pos_x : R;
  pos_y : R;
  width : R;
  height : R;
  pad_gap : R;
  inductor_width : R;
  pad_width : R;
  pad_height : R;
  pad_radius : R;
  l_width : R;
  l_arm_length : R;
  l_inductance : R;
  l_ind_per_square : R;
  l_fillet : R;
  L_j : string;
  pocket_width : R;
  pocket_height : R;
  orientation : R;
  flux_bias_line_options : FluxBiasLineOptions;
  charge_line_options : ChargeLineOptions;
  readout_line_options : ReadoutLineOptions
}.

Definition default_options : Options := {|
  chip := "main";
  pos_x := 0;
  pos_y := 0;
  width := 1.2;
  height := 1.2;
  pad_gap := 0.03;
  inductor_width := 0.01;
  pad_width := 0.015;
  pad_height := 0.2;
  pad_radius := 0.05;
  l_width := 0.001;
  l_arm_length := 0.05;
  l_inductance := 200;
  l_ind_per_square := 2;
  l_fillet := 0.005;
  L_j := "16.35nH";
  pocket_width := 0.8;
  pocket_height := 0.8;
  orientation := 0;
  flux_bias_line_options := mkFbl false 0.05 0.05 0.01 0.01;
  charge_line_options := mkCl false 0.015 0.01 0.01;
  readout_line_options := mkRol false 0.02 0.15 0.05 0.01 0.01 0.01
|}.

(** [L_tot = l_inductance * p.l_width / ind_per_square]. *)
Definition L_tot (p : Options) : Result R :=
  truediv (l_inductance p * l_width p) (l_ind_per_square p).

(** The quarter-ring fillet [poly_seg] of the inductor meander. *)
Definition poly_seg (p : Options) : Result Shape :=
  let outer_circle := Point_buffer 0 0 (l_fillet p + l_width p / 2) in
  let inner_circle := Point_buffer 0 0 (l_fillet p - l_width p / 2) in
  let circle := draw.subtract outer_circle inner_circle in
  match rectangle (l_fillet p + l_width p / 2) (2 * l_fillet p + l_width p)
                  (- (l_fillet p + l_width p / 2) / 2) 0 with
  | Raise e => Raise e
  | Ok r1 =>
      let semicircle := draw.subtract circle r1 in
      match rectangle (2 * l_fillet p + l_width p) (l_fillet p + l_width p / 2)
                      0 (- (l_fillet p + l_width p / 2) / 2) with
      | Raise e => Raise e
      | Ok r2 => Ok (draw.subtract semicircle r2)
      end
  end.

(** The two arms of the inductor in the local frame, as [make_pocket]
    builds them before any placement. *)
Definition poly_wire_top_local (p : Options) (Ltot : R) (seg : Shape)
    (arm : Shape) : Shape :=
  let mount_top := translate arm ((pad_width p + l_arm_length p) / 2)
                     (Ltot / 2 + l_fillet p) in
  let seg_top := translate seg (l_arm_length p + pad_width p / 2) (Ltot / 2) in
  draw.union [mount_top; seg_top].

Definition poly_wire_bot_local (p : Options) (Ltot : R) (seg : Shape)
    (arm : Shape) : Shape :=
  let mount_bot := translate arm ((pad_width p + l_arm_length p) / 2)
                     (- Ltot / 2 - l_fillet p) in
  let seg_bot := translate (rotate seg (-90))
                   (l_arm_length p + pad_width p / 2) (- Ltot / 2) in
  draw.union [seg_bot; mount_bot].

Definition make_pocket (p : Options) : M unit :=
  (* Draw the junction *)
  let rect_jj := LineString [(0, - pad_gap p / 2); (0, pad_gap p / 2)] in
  (* Draw the pads *)
  pad_rect <- lift (rectangle (pad_width p) (pad_height p - pad_radius p) 0 0) ;;
  let pad_circle :=
    Point_buffer 0 ((pad_height p - pad_radius p) / 2) (pad_radius p) in
  let pad := draw.union [pad_rect; pad_circle] in
  let pad_top :=
    translate pad 0 ((pad_height p + pad_gap p - pad_radius p) / 2) in
  let pad_bot := rotate pad_top 180 in
  (* Calculating total length of the inductor *)
  Ltot <- lift (L_tot p) ;;
  (* Draw fillets for inductor meander *)
  seg <- lift (poly_seg p) ;;
  (* Place and orientate copies of the poly_seg *)
  arm_top <- lift (rectangle (l_arm_length p) (l_width p) 0 0) ;;
  arm_bot <- lift (rectangle (l_arm_length p) (l_width p) 0 0) ;;
  let poly_wire_top := poly_wire_top_local p Ltot seg arm_top in
  let poly_wire_bot := poly_wire_bot_local p Ltot seg arm_bot in
  (* Create linestring inductor segments *)
  let c := (pad_width p / 2 + l_arm_length p + l_fillet p, Ltot / 2) in
  let d := (pad_width p / 2 + l_arm_length p + l_fillet p, - Ltot / 2) in
  let inductor := LineString [c; d] in
  (* Draw the pocket *)
  rect_pk <- lift (rectangle (pocket_width p) (pocket_height p) 0 0) ;;
  (* Rotate and translate all qgeometry as needed. *)
  let polys := [rect_jj; pad_top; pad_bot; rect_pk;
                poly_wire_top; poly_wire_top; inductor] in
  let polys := rotate_list polys (orientation p) in
  let polys := translate_list polys (pos_x p) (pos_y p) in
  match polys with
  | [rect_jj; pad_top; pad_bot; rect_pk; _; poly_wire_top; inductor] =>
      add_qgeometry poly [("pad_top", pad_top); ("pad_bot", pad_bot);
                          ("poly_wire_top", poly_wire_top);
                          ("poly_wire_bot", poly_wire_bot)] kw ;;;
      add_qgeometry poly [("rect_pk", rect_pk)] (kw_subtract true kw) ;;;
      add_qgeometry junction [("inductor", inductor)]
        (kw_hfss_inductance (InductanceNH (l_inductance p))
           (kw_width (l_width p) kw)) ;;;
      add_qgeometry junction [("rect_jj", rect_jj)]
        (kw_hfss_inductance (InductanceStr (L_j p))
           (kw_width (inductor_width p) kw))
  | _ => raise ValueError
  end.

Definition qpin_rotate_translate (p : Options) (x : point) : point :=
  let y0 := fst x in
  let y1 := snd x in
  let z0 := y0 * cos (orientation p * 3.14159 / 180)
            - y1 * sin (orientation p * 3.14159 / 180) in
  let z1 := y0 * sin (orientation p * 3.14159 / 180)
            + y1 * cos (orientation p * 3.14159 / 180) in
  let z0 := z0 + pos_x p in
  let z1 := z1 + pos_y p in
  (z0, z1).

Definition make_flux_bias_line (p : Options) : M unit :=
  let pf := flux_bias_line_options p in
  let a := (pocket_width p / 2, fbl_height pf / 2) in
  let b := (pad_width p / 2 + l_arm_length p + fbl_sep pf
            + (l_width p + fbl_cpw_width pf) / 2, 0.5 * fbl_height pf) in
  let c := (pad_width p / 2 + l_arm_length p + fbl_sep pf
            + (l_width p + fbl_cpw_width pf) / 2, 0.5 * - fbl_height pf) in
  let d := (pocket_width p / 2, - fbl_height pf / 2) in
  let e := (width p / 2, - fbl_height pf / 2) in
  let fbl := LineString [a; b; c; d; e] in
  let fbl_gap := LineString [d; e] in
  (* Translate and rotate all elements *)
  let segments := [fbl; fbl_gap] in
  let segments := rotate_list segments (orientation p) in
  let segments := translate_list segments (pos_x p) (pos_y p) in
  match segments with
  | [fbl; fbl_gap] =>
      add_qgeometry path [("path", fbl)]
        (kw_width (fbl_cpw_width pf) (kw_subtract false (kw_layer 1 kw))) ;;;
      add_qgeometry path [("path", fbl_gap)]
        (kw_width (fbl_cpw_width pf + 2 * fbl_cpw_gap pf)
           (kw_subtract true (kw_layer 1 kw))) ;;;
      (* add pins *)
      let fbl_pin1 := qpin_rotate_translate p d in
      let fbl_pin2 := qpin_rotate_translate p e in
      add_pin "Flux bias line" [fbl_pin1; fbl_pin2] (fbl_cpw_width pf) true
  | _ => raise ValueError
  end.

Definition make_charge_line (p : Options) : M unit :=
  let pc := charge_line_options p in
  let a := height p / 2 in
  let b := pocket_height p / 2 + cl_sep pc in
  cl <- lift (box (- cl_cpw_width pc / 2) a (cl_cpw_width pc / 2) b) ;;
  cl_gap <- lift (box (- cl_cpw_gap pc / 2 - cl_cpw_width pc / 2) a
                      (cl_cpw_gap pc / 2 + cl_cpw_width pc / 2)
                      (b - cl_cpw_gap pc)) ;;
  (* Translate and rotate all elements *)
  let segments := [cl; cl_gap] in
  let segments := rotate_list segments (orientation p) in
  let segments := translate_list segments (pos_x p) (pos_y p) in
  match segments with
  | [cl; cl_gap] =>
      add_qgeometry poly [("cl", cl)] kw ;;;
      add_qgeometry poly [("cl_gap", cl_gap)] (kw_subtract true kw) ;;;
      (* add pins *)
      let cl_pin1 := qpin_rotate_translate p (0, b) in
      let cl_pin2 := qpin_rotate_translate p (0, a) in
      add_pin "Charge line" [cl_pin1; cl_pin2] (cl_cpw_width pc) true
  | _ => raise ValueError
  end.

Definition make_readout_line (p : Options) : M unit :=
  let pr := readout_line_options p in
  (* Draw the readout pad *)
  pad <- lift (rectangle (rol_pad_width pr) (rol_pad_height pr) 0 0) ;;
  cutout_pad <- lift (rectangle (rol_pad_width pr + 2 * rol_pad_gap pr)
                                (rol_pad_height pr + 2 * rol_pad_gap pr) 0 0) ;;
  let pad := translate pad 0
      (- (rol_pad_height pr + pocket_height p) / 2 - rol_pad_sep pr - rol_pad_gap pr) in
  let cutout_pad := translate cutout_pad 0
      (- (rol_pad_height pr + pocket_height p) / 2 - rol_pad_sep pr - rol_pad_gap pr) in
  (* Draw the coplanar waveguide *)
  let a := (0, - height p / 2) in
  let b := (0, - rol_pad_height pr - pocket_height p / 2 - rol_pad_sep pr
               - rol_pad_gap pr) in
  let cpw_readout := LineString [a; b] in
  (* Translate and rotate all elements *)
  let segments := [pad; cutout_pad; cpw_readout] in
  let segments := rotate_list segments (orientation p) in
  let segments := translate_list segments (pos_x p) (pos_y p) in
  match segments with
  | [pad; cutout_pad; cpw_readout] =>
      add_qgeometry poly [("pad", pad)] kw ;;;
      add_qgeometry poly [("cutout_pad", cutout_pad)] (kw_subtract true kw) ;;;
      add_qgeometry path [("path", cpw_readout)]
        (kw_width (rol_cpw_width pr) (kw_subtract false (kw_layer 1 kw))) ;;;
      add_qgeometry path [("path", cpw_readout)]
        (kw_width (rol_cpw_width pr + 2 * rol_cpw_gap pr)
           (kw_subtract true (kw_layer 1 kw))) ;;;
      (* add pins *)
      let ro_pin1 := qpin_rotate_translate p b in
      let ro_pin2 := qpin_rotate_translate p a in
      add_pin "Readout line" [ro_pin1; ro_pin2] (rol_cpw_width pr) true
  | _ => raise ValueError
  end.

Definition make (p : Options) : M unit :=
  make_pocket p ;;;
  when (make_fbl (flux_bias_line_options p)) (make_flux_bias_line p) ;;;
  when (make_cl (charge_line_options p)) (make_charge_line p) ;;;
  when (make_rol (readout_line_options p)) (make_readout_line p).

(** *** Option tables used in the statements below *)

(** [with_placement o x y p] is [p] with [orientation], [pos_x] and [pos_y]
    replaced. *)
Definition with_placement (o x y : R) (p : Options) : Options :=
  mkOptions (chip p) x y (width p) (height p) (pad_gap p) (inductor_width p)
    (pad_width p) (pad_height p) (pad_radius p) (l_width p) (l_arm_length p)
    (l_inductance p) (l_ind_per_square p) (l_fillet p) (L_j p)
    (pocket_width p) (pocket_height p) o
    (flux_bias_line_options p) (charge_line_options p) (readout_line_options p).

(** [with_inductance l s p] is [p] with [l_inductance] and
    [l_ind_per_square] replaced. *)
Definition with_inductance (l s : R) (p : Options) : Options :=
  mkOptions (chip p) (pos_x p) (pos_y p) (width p) (height p) (pad_gap p)
    (inductor_width p) (pad_width p) (pad_height p) (pad_radius p) (l_width p)
    (l_arm_length p) l s (l_fillet p) (L_j p)
    (pocket_width p) (pocket_height p) (orientation p)
    (flux_bias_line_options p) (charge_line_options p) (readout_line_options p).

(** [with_lines f c r p] is [p] with the three feature toggles replaced. *)
Definition with_lines (f c r : bool) (p : Options) : Options :=
  let pf := flux_bias_line_options p in
  let pc := charge_line_options p in
  let pr := readout_line_options p in
  mkOptions (chip p) (pos_x p) (pos_y p) (width p) (height p) (pad_gap p)
    (inductor_width p) (pad_width p) (pad_height p) (pad_radius p) (l_width p)
    (l_arm_length p) (l_inductance p) (l_ind_per_square p) (l_fillet p) (L_j p)
    (pocket_width p) (pocket_height p) (orientation p)
    (mkFbl f (fbl_sep pf) (fbl_height pf) (fbl_cpw_width pf) (fbl_cpw_gap pf))
    (mkCl c (cl_sep pc) (cl_cpw_width pc) (cl_cpw_gap pc))
    (mkRol r (rol_pad_sep pr) (rol_pad_width pr) (rol_pad_height pr)
       (rol_pad_gap pr) (rol_cpw_width pr) (rol_cpw_gap pr)).

(** The options under which no step of [make_pocket] raises: every
    rectangle has a positive width and height, and the inductance per
    square is not zero. *)
Definition pocket_ok (p : Options) : Prop :=
  0 < pad_width p /\ 0 < pad_height p - pad_radius p /\
  l_ind_per_square p <> 0 /\
  0 < l_fillet p + l_width p / 2 /\ 0 < 2 * l_fillet p + l_width p /\
  0 < l_arm_length p /\ 0 < l_width p /\
  0 < pocket_width p /\ 0 < pocket_height p.

(** Two option tables that agree everywhere except, possibly, on
    [l_inductance] and [l_ind_per_square]. *)
Definition same_but_inductance (p q : Options) : Prop :=
  q = with_inductance (l_inductance q) (l_ind_per_square q) p.

End FluxoniumPocket.

(** ** [qiskit_metal/qlibrary/terminations/ebeam_frame.py] *)

Module Frame.

Import draw core.

(** [frame_w], [frame_h] and [f_width] are the component's own options;
    [orientation], [pos_x], [pos_y] and [layer] come with every
    component. *)
Record Options : Type := mkOptions {
  frame_w : R;
  frame_h : R;
  f_width : R;
  orientation : R;
  pos_x : R;
  pos_y : R;
  layer : Z
}.

(** The component's own defaults: ['9mm'], ['9mm'], ['70um']. *)
Definition default_options (orientation pos_x pos_y : R) (layer : Z) : Options :=
  mkOptions 9 9 0.07 orientation pos_x pos_y layer.

Definition make (p : Options) : M unit :=
  let frame_w := frame_w p in
  let frame_h := frame_h p in
  let f_width := f_width p in
  (* Creates a frame around the device, size of 9*9mm *)
  line_top <- lift (rectangle frame_w f_width 0 4.5) ;;
  line_left <- lift (rectangle f_width frame_h 4.5 0) ;;
  line_right <- lift (rectangle f_width frame_h (-4.5) 0) ;;
  line_bottom <- lift (rectangle frame_w f_width 0 (-4.5)) ;;
  let frame := draw.union [line_top; line_left; line_right; line_bottom] in
  (* Create polygon object list *)
  let polys := [frame] in
  let polys := rotate_list polys (orientation p) in
  let polys := translate_list polys (pos_x p) (pos_y p) in
  match polys with
  | [frame] =>
      add_qgeometry poly [("frame", frame)] (kw_layer (layer p) kw)
  | _ => raise ValueError
  end.

(** The device outline is the [frame_w] by [frame_h] rectangle about the
    origin; these are the midpoints of its top, right, left and bottom
    sides, in the order in which [make] draws its four lines. *)
Definition border_midpoints (p : Options) : list point :=
  [(0, frame_h p / 2); (frame_w p / 2, 0);
   (- frame_w p / 2, 0); (0, - frame_h p / 2)].

(** Four lines are centred on the device border when their centres are
    the midpoints of its sides. *)
Definition centered_on_border (p : Options) (lines : list Shape) : Prop :=
  map center lines = map Some (border_midpoints p).

End Frame.

(** ** [qiskit_metal/qlibrary/terminations/ebeam_marker.py] *)

Module Markers.

Import draw core.

Record Options : Type := mkOptions {
  pos_x : R;
  pos_y : R;
  marker_sep : R;
  marker_w : R;
  marker_h : R;
  markers_gap : R;
  orientation : R;
  layer : Z
}.

(** The component's own defaults: ['0.0mm'], ['0.0mm'], ['40um'],
    ['20um'], ['20um'], ['200um']. *)
Definition default_options (orientation : R) (layer : Z) : Options :=
  mkOptions 0 0 0.04 0.02 0.02 0.2 orientation layer.

Definition make (p : Options) : M unit :=
  let pos_x := pos_x p in
  let pos_y := pos_y p in
  let marker_sep := marker_sep p in
  let marker_w := marker_w p in
  let marker_h := marker_h p in
  let markers_gap := markers_gap p in
  (* Square shape markers for E-Beam marker search *)
  marker_1 <- lift (rectangle marker_w marker_h
                      (pos_x / 2 + marker_sep) (pos_y / 2 + marker_sep)) ;;
  marker_2 <- lift (rectangle marker_w marker_h
                      (pos_x / 2 - marker_sep) (pos_y / 2 + marker_sep)) ;;
  marker_3 <- lift (rectangle marker_w marker_h
                      (pos_x / 2 + marker_sep) (pos_y / 2 - marker_sep)) ;;
  marker_4 <- lift (rectangle marker_w marker_h
                      (pos_x / 2 - marker_sep) (pos_y / 2 - marker_sep)) ;;
  let markers := draw.union [marker_1; marker_2; marker_3; marker_4] in
  (* Create the pocket for the markers *)
  markers_pk <- lift (rectangle markers_gap markers_gap (pos_x / 2) (pos_y / 2)) ;;
  (* Create polygon object list *)
  let polys := [markers; markers_pk] in
  let polys := rotate_list polys (orientation p) in
  let polys := translate_list polys (pos_x / 2) (pos_y / 2) in
  match polys with
  | [markers; markers_pk] =>
      (* Adds the object to the qgeometry table *)
      add_qgeometry poly [("markers", markers)] (kw_layer (layer p) kw) ;;;
      (* Subtracts out ground plane on the layer its on *)
      add_qgeometry poly [("markers_pk", markers_pk)]
        (kw_layer (layer p) (kw_subtract true kw))
  | _ => raise ValueError
  end.

End Markers.

(** ** [tutorials/Fluxonium/Calibraitions_GDS/junction_array.py] *)

Module JunctionArray.

Import draw core.

Record ArrayUnit : Type := mkArrayUnit {
  array_pad_x : R;
  array_pad_y : R;
  array_gap_y : R;
  junction_thickness : R;
  n_junction : R
}.

Record Options : Type := mkOptions {
  chip : string;
  ground_gap_x : R;
  ground_gap_y : R;
  array_unit : ArrayUnit;
  orientation : R;
  pos_x : R;
  pos_y : R;
  layer : Z
}.

(** The component's own defaults: chip ['main'], gaps ['20um'], and the
    array unit ['20um'], ['50um'], ['10um'], ['10um'], ['10']. *)
Definition default_options (orientation pos_x pos_y : R) (layer : Z) : Options :=
  mkOptions "main" 0.02 0.02 (mkArrayUnit 0.02 0.05 0.01 0.01 10)
            orientation pos_x pos_y layer.

(** The body of the loop over [idx], with the running offset [junc_yoff]. *)
Fixpoint jj_loop (p : Options) (jj_pad rect_jj : Shape) (idxs : list nat)
    (junc_yoff : R) : M unit :=
  let parray := array_unit p in
  match idxs with
  | [] => ret tt
  | idx :: rest =>
      let pad_junc := translate jj_pad 0 junc_yoff in
      add_qgeometry poly [("jj_pad_" ++ format_d idx, pad_junc)]
        (kw_chip (chip p) (kw_layer (layer p) kw)) ;;;
      let sim_junction := translate rect_jj 0 junc_yoff in
      let sim_junction := rotate sim_junction (orientation p) in
      let sim_junction := translate sim_junction (pos_x p) (pos_y p) in
      (if Req_dec_T (INR idx) (n_junction parray) then ret tt
       else
         add_qgeometry junction [("rect_jj_" ++ format_d idx, sim_junction)]
           (kw_gds_cell_name ("FakeJunction_0" ++ format_d (idx + 1))
              (kw_chip (chip p) (kw_width (junction_thickness parray) kw)))) ;;;
      let y_increment := array_pad_y parray + array_gap_y parray in
      jj_loop p jj_pad rect_jj rest (junc_yoff + y_increment)
  end.

Definition make_jj_array (p : Options) : M unit :=
  let parray := array_unit p in
  (* JJ array pad *)
  jj_pad <- lift (box (- array_pad_x parray / 2) (- array_pad_y parray / 2)
                      (array_pad_x parray / 2) (array_pad_y parray / 2)) ;;
  let jj_pad := rotate jj_pad (orientation p) in
  let jj_pad := translate jj_pad (pos_x p) (pos_y p) in
  let rect_jj := LineString [(0, 0); (0, array_gap_y parray)] in
  let yoff_junction_elem1 := array_pad_y parray / 2 in
  let rect_jj := translate rect_jj 0 yoff_junction_elem1 in
  (* Create JJ array *)
  jj_loop p jj_pad rect_jj (range (int (n_junction parray + 1))) 0.

Definition make_buffer_ground (p : Options) : M unit :=
  let parray := array_unit p in
  let ground_width := array_pad_x parray + 2 * ground_gap_x p in
  let ground_height :=
    IZR (int (n_junction parray + 1)) * array_pad_y parray
    + IZR (int (n_junction parray)) * array_gap_y parray
    + 2 * ground_gap_y p in
  let ground_bottom_y := - array_pad_y parray / 2 - ground_gap_y p in
  ground_etch <- lift (box (- ground_width / 2) ground_bottom_y
                           (ground_width / 2) (ground_bottom_y + ground_height)) ;;
  let ground_etch := rotate ground_etch (orientation p) in
  let ground_etch := translate ground_etch (pos_x p) (pos_y p) in
  add_qgeometry poly [("ground_etch", ground_etch)]
    (kw_subtract true (kw_chip (chip p) (kw_layer (layer p) kw))).

Definition make (p : Options) : M unit :=
  make_jj_array p ;;;
  make_buffer_ground p.

(** What a junction row carries besides its shape. *)
Definition junction_summary (q : QGeometry) : string * option R * option string :=
  (q_name q, core.width (q_attrs q), gds_cell_name (q_attrs q)).

(** The name and attributes the loop gives at index [idx]. *)
Definition jj_pad_name (idx : nat) : string := "jj_pad_" ++ format_d idx.

Definition rect_jj_summary (p : Options) (idx : nat)
  : string * option R * option string :=
  ("rect_jj_" ++ format_d idx,
   Some (junction_thickness (array_unit p)),
   Some ("FakeJunction_0" ++ format_d (idx + 1))).

(** [p] with [n_junction] replaced. *)
Definition with_n_junction (n : R) (p : Options) : Options :=
  let u := array_unit p in
  mkOptions (chip p) (ground_gap_x p) (ground_gap_y p)
    (mkArrayUnit (array_pad_x u) (array_pad_y u) (array_gap_y u)
       (junction_thickness u) n)
    (orientation p) (pos_x p) (pos_y p) (layer p).

End JunctionArray.

(** ** [qiskit_metal/qlibrary/qubits/tmon.py] *)

Module Tmon.

Import draw core.

(** The parsed options read by [make_pocket]; [pos_x] and [pos_y] come
    with every qubit.  [make_flux_bias_line] draws its pads with
    [draw.Polygon], which is outside [Shape], and is not embedded. *)
Record Options : Type := mkOptions {
  chip : string;
  inductor_width : R;
  jj_gap : R;
  pad_head_width : R;
  pad_head_length : R;
  pad_arm_width : R;
  pad_arm_length : R;
  palm_radius : R;
  pad_gap : R;
  orientation : R;
  pos_x : R;
  pos_y : R
}.

(** The component's own defaults, in millimetres, at a given position. *)
Definition default_options (pos_x pos_y : R) : Options :=
  mkOptions "main" 0.01 0.03 0.04 0.4 0.08 1 0.08 0.08 0 pos_x pos_y.

Definition make_pocket (p : Options) : M unit :=
  let jj_gap := jj_gap p in
  let pad_head_width := pad_head_width p in
  let pad_head_length := pad_head_length p in
  let pad_arm_width := pad_arm_width p in
  let pad_arm_length := pad_arm_length p in
  let palm_radius := palm_radius p in
  let pad_gap := pad_gap p in
  (* Draw 'the arms', the capacitance. *)
  pad_north <- lift (rectangle pad_head_width pad_head_length
                       0 (pad_head_length / 2)) ;;
  pad_equator <- lift (rectangle pad_arm_length pad_arm_width 0 0) ;;
  let pad_palm_left := Point_buffer (- pad_arm_length / 2) 0 (palm_radius / 2) in
  let pad_palm_right := Point_buffer (pad_arm_length / 2) 0 (palm_radius / 2) in
  let tmon := draw.union [pad_north; pad_equator; pad_palm_left; pad_palm_right] in
  (* grounded tmon needs to have gap around it *)
  pad_gap_north <- lift (rectangle (pad_head_width + 2 * pad_gap)
                           (pad_head_length + 2 * jj_gap)
                           0 (pad_head_length / 2)) ;;
  pad_gap_equator <- lift (rectangle (pad_arm_length + 2 * pad_gap)
                             (pad_arm_width + pad_gap * 2) 0 0) ;;
  let pad_palm_gap_left :=
    Point_buffer (- pad_arm_length / 2) 0 (palm_radius * 1.5) in
  let pad_palm_gap_right :=
    Point_buffer (pad_arm_length / 2) 0 (palm_radius * 1.5) in
  let pad_etch := draw.union [pad_gap_north; pad_gap_equator;
                              pad_palm_gap_left; pad_palm_gap_right] in
  (* Draw the junction *)
  let rect_jj := LineString [(0, pad_head_length + jj_gap);
                             (0, pad_head_length)] in
  (* Rotate and translate all qgeometry as needed. *)
  let polys := [rect_jj; tmon; pad_etch] in
  let polys := rotate_list polys (orientation p) in
  let polys := translate_list polys (pos_x p) (pos_y p) in
  match polys with
  | [rect_jj; tmon; pad_etch] =>
      add_qgeometry poly [("tmon", tmon)] kw ;;;
      add_qgeometry poly [("pad_etch", pad_etch)] (kw_subtract true kw) ;;;
      add_qgeometry junction [("rect_jj", rect_jj)]
        (kw_width (inductor_width p) kw)
  | _ => raise ValueError
  end.

(** The options under which no rectangle of [make_pocket] is rejected. *)
Definition pocket_ok (p : Options) : Prop :=
  0 < pad_head_width p /\ 0 < pad_head_length p /\
  0 < pad_arm_length p /\ 0 < pad_arm_width p /\
  0 < pad_head_width p + 2 * pad_gap p /\
  0 < pad_head_length p + 2 * jj_gap p /\
  0 < pad_arm_length p + 2 * pad_gap p /\
  0 < pad_arm_width p + pad_gap p * 2.

End Tmon.

(** ** Descriptions used in the statements on whole builds *)

(** The running offset [junc_yoff] of [JunctionArray.make_jj_array] when
    the loop reaches index [k]: it starts at 0 and grows by [y_increment]
    on every turn. *)
Fixpoint junc_yoff_at (y_increment : R) (k : nat) : R :=
  match k with
  | O => 0
  | S k' => junc_yoff_at y_increment k' + y_increment
  end.

Definition jj_y_increment (p : JunctionArray.Options) : R :=
  JunctionArray.array_pad_y (JunctionArray.array_unit p)
  + JunctionArray.array_gap_y (JunctionArray.array_unit p).

(** The pad of [make_jj_array] before the loop stacks it: the box that
    [draw.box] returns when it accepts the pad size, rotated and
    translated. *)
Definition jj_pad_placed (p : JunctionArray.Options) : draw.Shape :=
  let u := JunctionArray.array_unit p in
  draw.translate
    (draw.rotate
       (draw.Box (- JunctionArray.array_pad_x u / 2) (- JunctionArray.array_pad_y u / 2)
                 (JunctionArray.array_pad_x u / 2) (JunctionArray.array_pad_y u / 2))
       (JunctionArray.orientation p))
    (JunctionArray.pos_x p) (JunctionArray.pos_y p).

(** The options under which [draw.box] accepts the pad of
    [make_jj_array]: a positive pad width and height. *)
Definition array_ok (p : JunctionArray.Options) : Prop :=
  0 < JunctionArray.array_pad_x (JunctionArray.array_unit p) /\
  0 < JunctionArray.array_pad_y (JunctionArray.array_unit p).

(** The options under which [draw.box] accepts the ground box of
    [make_buffer_ground]: a positive [ground_width] and [ground_height]. *)
Definition ground_ok (p : JunctionArray.Options) : Prop :=
  let u := JunctionArray.array_unit p in
  0 < JunctionArray.array_pad_x u + 2 * JunctionArray.ground_gap_x p /\
  0 < IZR (int (JunctionArray.n_junction u + 1)) * JunctionArray.array_pad_y u
      + IZR (int (JunctionArray.n_junction u)) * JunctionArray.array_gap_y u
      + 2 * JunctionArray.ground_gap_y p.

(** The junction line of [make_jj_array] in the local frame, before the
    loop shifts and places it. *)
Definition jj_rect_local (p : JunctionArray.Options) : draw.Shape :=
  let u := JunctionArray.array_unit p in
  draw.translate (draw.LineString [(0, 0); (0, JunctionArray.array_gap_y u)])
    0 (JunctionArray.array_pad_y u / 2).

(** The shape the loop registers as [jj_pad_idx], and as [rect_jj_idx]. *)
Definition jj_pad_shape (p : JunctionArray.Options) (idx : nat) : draw.Shape :=
  draw.translate (jj_pad_placed p) 0 (junc_yoff_at (jj_y_increment p) idx).

Definition rect_jj_shape (p : JunctionArray.Options) (idx : nat) : draw.Shape :=
  draw.translate
    (draw.rotate
       (draw.translate (jj_rect_local p) 0 (junc_yoff_at (jj_y_increment p) idx))
       (JunctionArray.orientation p))
    (JunctionArray.pos_x p) (JunctionArray.pos_y p).

(** Whether the loop registers a junction at [idx]: [idx != n_junction]. *)
Definition jj_has_junction (p : JunctionArray.Options) (idx : nat) : bool :=
  if Req_dec_T (INR idx) (JunctionArray.n_junction (JunctionArray.array_unit p))
  then false else true.

Definition name_shape (q : core.QGeometry) : string * draw.Shape :=
  (core.q_name q, core.q_shape q).

(** The options under which no rectangle of
    [FluxoniumPocket.make_readout_line] is rejected. *)
Definition readout_ok (p : FluxoniumPocket.Options) : Prop :=
  let pr := FluxoniumPocket.readout_line_options p in
  0 < FluxoniumPocket.rol_pad_width pr /\
  0 < FluxoniumPocket.rol_pad_height pr /\
  0 < FluxoniumPocket.rol_pad_width pr + 2 * FluxoniumPocket.rol_pad_gap pr /\
  0 < FluxoniumPocket.rol_pad_height pr + 2 * FluxoniumPocket.rol_pad_gap pr.

(** The options under which [draw.box] accepts both boxes of
    [FluxoniumPocket.make_charge_line]: the line has a positive width, its
    box runs upward from [height / 2] to [pocket_height / 2 + cl_sep], and
    so does its etch, which stops [cpw_gap] earlier. *)
Definition charge_ok (p : FluxoniumPocket.Options) : Prop :=
  let pc := FluxoniumPocket.charge_line_options p in
  0 < FluxoniumPocket.cl_cpw_width pc /\
  FluxoniumPocket.height p / 2
  < FluxoniumPocket.pocket_height p / 2 + FluxoniumPocket.cl_sep pc /\
  0 < FluxoniumPocket.cl_cpw_gap pc + FluxoniumPocket.cl_cpw_width pc /\
  FluxoniumPocket.height p / 2
  < FluxoniumPocket.pocket_height p / 2 + FluxoniumPocket.cl_sep pc
    - FluxoniumPocket.cl_cpw_gap pc.

(** [p] with the charge line's [cl_sep] replaced. *)
Definition with_cl_sep (s : R) (p : FluxoniumPocket.Options) : FluxoniumPocket.Options :=
  let pc := FluxoniumPocket.charge_line_options p in
  FluxoniumPocket.mkOptions (FluxoniumPocket.chip p) (FluxoniumPocket.pos_x p)
    (FluxoniumPocket.pos_y p) (FluxoniumPocket.width p) (FluxoniumPocket.height p)
    (FluxoniumPocket.pad_gap p) (FluxoniumPocket.inductor_width p)
    (FluxoniumPocket.pad_width p) (FluxoniumPocket.pad_height p)
    (FluxoniumPocket.pad_radius p) (FluxoniumPocket.l_width p)
    (FluxoniumPocket.l_arm_length p) (FluxoniumPocket.l_inductance p)
    (FluxoniumPocket.l_ind_per_square p) (FluxoniumPocket.l_fillet p)
    (FluxoniumPocket.L_j p) (FluxoniumPocket.pocket_width p)
    (FluxoniumPocket.pocket_height p) (FluxoniumPocket.orientation p)
    (FluxoniumPocket.flux_bias_line_options p)
    (FluxoniumPocket.mkCl (FluxoniumPocket.make_cl pc) s
       (FluxoniumPocket.cl_cpw_width pc) (FluxoniumPocket.cl_cpw_gap pc))
    (FluxoniumPocket.readout_line_options p).

(** The pin names a [FluxoniumPocket] build should end with: one per
    enabled line, in the order flux bias, charge, readout. *)
Definition enabled_pin_names (p : FluxoniumPocket.Options) : list string :=
  ((if FluxoniumPocket.make_fbl (FluxoniumPocket.flux_bias_line_options p)
    then ["Flux bias line"] else [])
   ++ (if FluxoniumPocket.make_cl (FluxoniumPocket.charge_line_options p)
       then ["Charge line"] else [])
   ++ (if FluxoniumPocket.make_rol (FluxoniumPocket.readout_line_options p)
       then ["Readout line"] else []))%list.

(** The rows and the pins a build step registers when it runs on empty
    tables; nothing when it raises. *)
Definition rows_of (m : core.M unit) : list core.QGeometry :=
  match core.build m with
  | Ok st => core.qgeometry st
  | Raise _ => []
  end.

Definition pins_of (m : core.M unit) : list core.Pin :=
  match core.build m with
  | Ok st => core.pins st
  | Raise _ => []
  end.

(** Squared distance between two points. *)
Definition dist2 (a b : draw.point) : R :=
  (fst a - fst b) * (fst a - fst b) + (snd a - snd b) * (snd a - snd b).

(** * Properties *)

(** ** Builders and arithmetic *)

Section Builders.

Import draw.

Lemma rectangle_ok (w h xoff yoff : R) :
  0 < w -> 0 < h ->
  rectangle w h xoff yoff
  = Ok (Box (xoff - w / 2) (yoff - h / 2) (xoff + w / 2) (yoff + h / 2)).
Proof.
  intros Hw Hh. unfold rectangle.
  destruct (Rlt_dec 0 w) as [_|n]; [|contradiction].
  destruct (Rlt_dec 0 h) as [_|n]; [reflexivity|contradiction].
Qed.

Lemma rectangle_rejects (w h xoff yoff : R) :
  w <= 0 \/ h <= 0 -> rectangle w h xoff yoff = Raise ConfigurationError.
Proof.
  intros H. unfold rectangle.
  destruct (Rlt_dec 0 w); [|reflexivity].
  destruct (Rlt_dec 0 h); [|reflexivity].
  lra.
Qed.

Lemma box_ok (xmin ymin xmax ymax : R) :
  xmin < xmax -> ymin < ymax ->
  box xmin ymin xmax ymax = Ok (Box xmin ymin xmax ymax).
Proof.
  intros Hx Hy. unfold box.
  destruct (Rlt_dec xmin xmax) as [_|n]; [|contradiction].
  destruct (Rlt_dec ymin ymax) as [_|n]; [reflexivity|contradiction].
Qed.

Lemma truediv_ok (a b : R) : b <> 0 -> truediv a b = Ok (a / b).
Proof.
  intros Hb. unfold truediv.
  destruct (Req_dec_T b 0); [contradiction|reflexivity].
Qed.

(** The centre of a rectangle is where [draw.rectangle] was told to put
    it. *)
Lemma rectangle_center (w h xoff yoff : R) (s : Shape) :
  rectangle w h xoff yoff = Ok s -> center s = Some (xoff, yoff).
Proof.
  unfold rectangle.
  destruct (Rlt_dec 0 w); [|discriminate].
  destruct (Rlt_dec 0 h); [|discriminate].
  intros E. injection E as <-. simpl.
  f_equal. f_equal; field.
Qed.

(** 3.14159 is short of pi. *)
Lemma PI_above_3_14159 : 3.14159 < PI.
Proof.
  pose proof (PI_2_3_7_ineq 2) as [H _].
  unfold sum_f_R0, tg_alt, PI_2_3_7_tg, Ratan_seq in H.
  simpl in H.
  lra.
Qed.

(** *** The area of unions of rectangles *)

Lemma in_rect_inter (a b : rect) (p : point) :
  in_rect (rect_inter a b) p <-> in_rect a p /\ in_rect b p.
Proof.
  unfold in_rect, rect_inter. cbn [x0 y0 x1 y1].
  pose proof (Rmax_l (x0 a) (x0 b)). pose proof (Rmax_r (x0 a) (x0 b)).
  pose proof (Rmax_l (y0 a) (y0 b)). pose proof (Rmax_r (y0 a) (y0 b)).
  pose proof (Rmin_l (x1 a) (x1 b)). pose proof (Rmin_r (x1 a) (x1 b)).
  pose proof (Rmin_l (y1 a) (y1 b)). pose proof (Rmin_r (y1 a) (y1 b)).
  split.
  - intros [[? ?] [? ?]]. repeat split; lra.
  - intros [[[? ?] [? ?]] [[? ?] [? ?]]].
    repeat split;
      first [ apply Rmax_lub; assumption | apply Rmin_glb; assumption ].
Qed.

Lemma pts_Box_in_rect (xmin ymin xmax ymax : R) (b : rect) (p : point) :
  as_rect (Box xmin ymin xmax ymax) = Some b ->
  (pts (Box xmin ymin xmax ymax) p <-> in_rect b p).
Proof. intros E. injection E as <-. reflexivity. Qed.

Lemma rects_area_one (b : rect) : rects_area [b] = rect_area b.
Proof. unfold rects_area. simpl. ring. Qed.

Lemma rects_area_two (a b : rect) :
  rects_area [a; b] = rect_area a + rect_area b - rect_area (rect_inter a b).
Proof. unfold rects_area. simpl. ring. Qed.

(** Two rectangles apart along x add up. *)
Lemma rects_area_apart (a b : rect) :
  x1 a <= x0 b -> rects_area [a; b] = rect_area a + rect_area b.
Proof.
  intros H. rewrite rects_area_two.
  assert (E : rect_area (rect_inter a b) = 0).
  { unfold rect_area, rect_inter. cbn [x0 y0 x1 y1].
    pose proof (Rmin_l (x1 a) (x1 b)). pose proof (Rmax_r (x0 a) (x0 b)).
    rewrite (Rmax_left 0 (Rmin (x1 a) (x1 b) - Rmax (x0 a) (x0 b))) by lra.
    ring. }
  rewrite E. ring.
Qed.

(** A rigid motion does not change the area. *)
Lemma area_rotate_translate (s : Shape) (deg dx dy : R) :
  area (translate (rotate s deg) dx dy) = area s.
Proof. reflexivity. Qed.

End Builders.

(** ** The pin table *)

Section PinTable.

Import core.

(** Registering a pin name twice raises and leaves nothing behind. *)
Lemma add_pin_duplicate (n : string) (pts1 pts2 : list draw.point) (w1 w2 : R)
    (b1 b2 : bool) (st : QComponent) :
  core.bind (add_pin n pts1 w1 b1) (fun _ => add_pin n pts2 w2 b2) st
  = Raise DuplicatePinError.
Proof.
  unfold core.bind, add_pin.
  destruct (existsb (String.eqb n) (map pin_name (pins st))) eqn:E;
    [reflexivity|].
  cbn [pins]. rewrite map_app, existsb_app. cbn [map pin_name existsb].
  rewrite String.eqb_refl, orb_true_r. reflexivity.
Qed.

End PinTable.

(** ** Rigid placement *)

Section Placement.

Import draw.

Lemma radians_opp (d : R) : radians (- d) = - radians d.
Proof. unfold radians. field. Qed.

Lemma radians_0 : radians 0 = 0.
Proof. unfold radians. field. Qed.

Lemma rot_0 (p : point) : rot 0 p = p.
Proof.
  unfold rot. rewrite radians_0, cos_0, sin_0.
  destruct p as [a b]. simpl. f_equal; ring.
Qed.

Lemma rot_opp_0 (p : point) : rot (- 0) p = p.
Proof. rewrite Ropp_0. apply rot_0. Qed.

(** Turning back undoes a turn. *)
Lemma rot_opp_rot (d : R) (p : point) : rot (- d) (rot d p) = p.
Proof.
  unfold rot. rewrite radians_opp, cos_neg, sin_neg.
  destruct p as [a b]. cbn [fst snd].
  pose proof (sin2_cos2 (radians d)) as H. unfold Rsqr in H.
  f_equal.
  - replace a with (a * (sin (radians d) * sin (radians d)
                         + cos (radians d) * cos (radians d))) at 3
      by (rewrite H; ring).
    ring.
  - replace b with (b * (sin (radians d) * sin (radians d)
                         + cos (radians d) * cos (radians d))) at 3
      by (rewrite H; ring).
    ring.
Qed.

(** A rotation keeps the distance to the origin. *)
Lemma rot_norm (d : R) (p : point) :
  fst (rot d p) * fst (rot d p) + snd (rot d p) * snd (rot d p)
  = fst p * fst p + snd p * snd p.
Proof.
  unfold rot. destruct p as [a b]. cbn [fst snd].
  pose proof (sin2_cos2 (radians d)) as H. unfold Rsqr in H.
  replace (a * a + b * b)
    with ((a * a + b * b) * (sin (radians d) * sin (radians d)
                             + cos (radians d) * cos (radians d)))
    by (rewrite H; ring).
  ring.
Qed.

Lemma shift_back (dx dy : R) (p : point) : shift (- dx) (- dy) (shift dx dy p) = p.
Proof. destruct p as [a b]. unfold shift. cbn [fst snd]. f_equal; ring. Qed.

(** Rotating a shape and then translating it places it: the result covers
    exactly the image of the shape under the rigid map. *)
Lemma placed_rotate_translate (d dx dy : R) (s : Shape) :
  placed d dx dy s (translate (rotate s d) dx dy).
Proof.
  intros p. unfold translate, rotate, place. cbn [pts].
  rewrite shift_back, rot_opp_rot. reflexivity.
Qed.

(** At [orientation = 0] and no offset the placed shape covers the same
    points as the shape itself. *)
Lemma pts_rotate_translate_0 (s : Shape) (p : point) :
  pts (translate (rotate s 0) 0 0) p <-> pts s p.
Proof.
  unfold translate, rotate. cbn [pts].
  rewrite rot_opp_0.
  replace (shift (- 0) (- 0) p) with p; [reflexivity|].
  destruct p as [a b]. unfold shift. cbn [fst snd]. f_equal; ring.
Qed.

End Placement.

(** ** Pin endpoints of [FluxoniumPocket] *)

Section PinEndpoints.

Import draw core FluxoniumPocket.

(** The pin transform is the rotation by the angle
    [orientation * 3.14159 / 180], followed by the translation. *)
Lemma qpin_rotate_translate_eq (p : Options) (x : point) :
  let t := orientation p * 3.14159 / 180 in
  qpin_rotate_translate p x
  = (fst x * cos t - snd x * sin t + pos_x p,
     fst x * sin t + snd x * cos t + pos_y p).
Proof. reflexivity. Qed.

(** C8. With [orientation = 0] and [pos_x = pos_y = 0] the pin transform
    returns every endpoint [(x, y)] unchanged: its cosine term is exactly 1
    and its sine term exactly 0. *)
Theorem qpin_rotate_translate_identity (p : Options) (x : point) :
  orientation p = 0 -> pos_x p = 0 -> pos_y p = 0 ->
  cos (orientation p * 3.14159 / 180) = 1 /\
  sin (orientation p * 3.14159 / 180) = 0 /\
  qpin_rotate_translate p x = x.
Proof.
  intros Ho Hx Hy.
  assert (E : orientation p * 3.14159 / 180 = 0) by (rewrite Ho; lra).
  unfold qpin_rotate_translate. rewrite E, Hx, Hy, cos_0, sin_0.
  repeat split.
  destruct x as [a b]. simpl. f_equal; ring.
Qed.

(** The default options have [orientation = 0] and no offset. *)
Lemma qpin_rotate_translate_identity_default :
  orientation default_options = 0 /\
  qpin_rotate_translate default_options (3, 4) = (3, 4).
Proof.
  split; [reflexivity|].
  apply (qpin_rotate_translate_identity default_options (3, 4));
    reflexivity.
Defined.

(** The cosine the pin transform uses for a half turn is not -1. *)
Lemma cos_3_14159 : -1 < cos 3.14159.
Proof.
  pose proof PI_above_3_14159 as Hpi.
  rewrite <- cos_PI.
  apply cos_decreasing_1; lra.
Qed.

(** C4. At [orientation = 180], [pos = (0, 0)] and the endpoint [(1, 0)]
    the formula [x cos t - y sin t + pos_x] with [t = orientation * pi / 180]
    gives -1, and [qpin_rotate_translate] returns another abscissa: it
    turns by [orientation * 3.14159 / 180]. *)
Theorem qpin_rotate_translate_half_turn :
  let p := with_placement 180 0 0 default_options in
  1 * cos (orientation p * PI / 180) - 0 * sin (orientation p * PI / 180)
    + pos_x p = -1 /\
  fst (qpin_rotate_translate p (1, 0)) = cos 3.14159 /\
  fst (qpin_rotate_translate p (1, 0))
  <> 1 * cos (orientation p * PI / 180) - 0 * sin (orientation p * PI / 180)
     + pos_x p.
Proof.
  cbn zeta.
  assert (Ea : orientation (with_placement 180 0 0 default_options) * PI / 180 = PI)
    by (simpl; field).
  assert (Eb : orientation (with_placement 180 0 0 default_options) * 3.14159 / 180
               = 3.14159) by (simpl; field).
  assert (Ec : fst (qpin_rotate_translate (with_placement 180 0 0 default_options) (1, 0))
               = cos 3.14159).
  { unfold qpin_rotate_translate. rewrite Eb. simpl. ring. }
  rewrite Ea, Ec, cos_PI, sin_PI.
  change (pos_x (with_placement 180 0 0 default_options)) with 0.
  pose proof cos_3_14159.
  repeat split; lra.
Qed.

End PinEndpoints.

(** ** What a [FluxoniumPocket] build registers *)

Section FluxoniumPocketBuild.

Import draw core FluxoniumPocket.

(** The names of a category can be read off the (category, name) pairs. *)
Lemma names_of_kind_name (k : Kind) (st : QComponent) :
  names_of k st
  = map snd (filter (fun kn => Kind_eqb (fst kn) k) (map kind_name (qgeometry st))).
Proof.
  unfold names_of.
  induction (qgeometry st) as [|q l IH]; [reflexivity|].
  cbn [filter map kind_name fst].
  destruct (Kind_eqb (q_kind q) k); cbn [map snd]; rewrite IH; reflexivity.
Qed.

(** [make_pocket] appends its seven rows and leaves the pins alone. *)
Lemma make_pocket_runs (p : Options) (st : QComponent) :
  pocket_ok p ->
  exists rows : list QGeometry,
    make_pocket p st = Ok (tt, mkQComponent (qgeometry st ++ rows)%list (pins st)) /\
    map kind_name rows
    = [(poly, "pad_top"); (poly, "pad_bot"); (poly, "poly_wire_top");
       (poly, "poly_wire_bot"); (poly, "rect_pk");
       (junction, "inductor"); (junction, "rect_jj")].
Proof.
  intros (H1 & H2 & H3 & H4 & H5 & H6 & H7 & H8 & H9).
  unfold make_pocket, core.bind, lift, L_tot, poly_seg.
  rewrite !rectangle_ok by assumption.
  rewrite truediv_ok by assumption.
  cbn [rotate_list translate_list map add_qgeometry qgeometry pins fst snd].
  unfold add_qgeometry.
  cbn [map qgeometry pins fst snd].
  rewrite <- !app_assoc.
  eexists. split; reflexivity.
Qed.

(** The flux bias line alone: two path rows, both named [path], and the
    pin. *)
Lemma make_flux_bias_line_runs (p : Options) (g : list QGeometry) :
  let pf := flux_bias_line_options p in
  exists rows : list QGeometry,
    make_flux_bias_line p (mkQComponent g [])
    = Ok (tt, mkQComponent (g ++ rows)%list
                [mkPin "Flux bias line"
                   [qpin_rotate_translate p (pocket_width p / 2, - fbl_height pf / 2);
                    qpin_rotate_translate p (width p / 2, - fbl_height pf / 2)]
                   (fbl_cpw_width pf) true]) /\
    map kind_name rows = [(path, "path"); (path, "path")].
Proof.
  unfold make_flux_bias_line, core.bind, add_qgeometry, add_pin.
  cbn [rotate_list translate_list map qgeometry pins fst snd existsb app].
  rewrite <- !app_assoc.
  eexists. split; reflexivity.
Qed.

Lemma make_fbl_only (p : Options) :
  pocket_ok p ->
  make_fbl (flux_bias_line_options p) = true ->
  make_cl (charge_line_options p) = false ->
  make_rol (readout_line_options p) = false ->
  let pf := flux_bias_line_options p in
  exists rows : list QGeometry,
    build (make p)
    = Ok (mkQComponent rows
            [mkPin "Flux bias line"
               [qpin_rotate_translate p (pocket_width p / 2, - fbl_height pf / 2);
                qpin_rotate_translate p (width p / 2, - fbl_height pf / 2)]
               (fbl_cpw_width pf) true]) /\
    map kind_name rows
    = [(poly, "pad_top"); (poly, "pad_bot"); (poly, "poly_wire_top");
       (poly, "poly_wire_bot"); (poly, "rect_pk");
       (junction, "inductor"); (junction, "rect_jj");
       (path, "path"); (path, "path")].
Proof.
  intros V Hf Hc Hr pf.
  destruct (make_pocket_runs p empty V) as (r1 & E1 & N1).
  destruct (make_flux_bias_line_runs p r1) as (r2 & E2 & N2).
  unfold build, make, core.bind, when.
  rewrite E1, Hf, Hc, Hr. cbn [qgeometry pins empty app].
  rewrite E2. cbn [ret].
  exists (r1 ++ r2)%list. split; [reflexivity|].
  rewrite map_app, N1, N2. reflexivity.
Qed.

Lemma default_pocket_ok (f c r : bool) :
  pocket_ok (with_lines f c r default_options).
Proof. unfold pocket_ok; simpl; repeat split; lra. Qed.

(** C6. A build with the flux bias line enabled and the charge and readout
    lines disabled registers exactly one pin; it is named
    [Flux bias line] and its width is the flux line's [cpw_width]. *)
Theorem make_fbl_single_pin (p : Options) :
  pocket_ok p ->
  make_fbl (flux_bias_line_options p) = true ->
  make_cl (charge_line_options p) = false ->
  make_rol (readout_line_options p) = false ->
  exists (st : QComponent) (pn : Pin),
    build (make p) = Ok st /\
    pins st = [pn] /\
    pin_name pn = "Flux bias line" /\
    pin_width pn = fbl_cpw_width (flux_bias_line_options p).
Proof.
  intros V Hf Hc Hr.
  destruct (make_fbl_only p V Hf Hc Hr) as (rows & E & _).
  eexists. eexists. split; [exact E|].
  repeat split.
Qed.

(** The default options with only the flux bias line enabled. *)
Lemma make_fbl_single_pin_default :
  exists (st : QComponent) (pn : Pin),
    build (make (with_lines true false false default_options)) = Ok st /\
    pins st = [pn] /\
    pin_name pn = "Flux bias line" /\
    pin_width pn = 0.01.
Proof.
  apply (make_fbl_single_pin (with_lines true false false default_options)).
  - apply default_pocket_ok.
  - reflexivity.
  - reflexivity.
  - reflexivity.
Defined.

(** C2. The default options with the flux bias line enabled: the build
    succeeds and its two rows of category [path] share the name [path]. *)
Theorem make_fbl_path_names_collide :
  exists st : QComponent,
    build (make (with_lines true false false default_options)) = Ok st /\
    names_of path st = ["path"; "path"] /\
    ~ NoDup (names_of path st).
Proof.
  destruct (make_fbl_only (with_lines true false false default_options)
              (default_pocket_ok true false false) eq_refl eq_refl eq_refl)
    as (rows & E & N).
  eexists. split; [exact E|].
  assert (En : names_of path (mkQComponent rows
     [mkPin "Flux bias line"
        [qpin_rotate_translate (with_lines true false false default_options)
           (pocket_width (with_lines true false false default_options) / 2,
            - fbl_height (flux_bias_line_options
                            (with_lines true false false default_options)) / 2);
         qpin_rotate_translate (with_lines true false false default_options)
           (width (with_lines true false false default_options) / 2,
            - fbl_height (flux_bias_line_options
                            (with_lines true false false default_options)) / 2)]
        (fbl_cpw_width (flux_bias_line_options
                          (with_lines true false false default_options))) true])
     = ["path"; "path"]).
  { rewrite names_of_kind_name. cbn [qgeometry]. rewrite N. reflexivity. }
  split; [exact En|].
  rewrite En. intros ND. inversion ND as [|x l Hin _]. apply Hin. left. reflexivity.
Qed.

End FluxoniumPocketBuild.

(** ** The [Frame] component *)

Section FrameBuild.

Import draw core Frame.

(** Evaluates [Rmax] and [Rmin] between numerals. *)
Ltac rminmax :=
  repeat match goal with
    | |- context [Rmax ?a ?b] =>
        first [ rewrite (Rmax_left a b) by lra
              | rewrite (Rmax_right a b) by lra ]
    | |- context [Rmin ?a ?b] =>
        first [ rewrite (Rmin_left a b) by lra
              | rewrite (Rmin_right a b) by lra ]
    end.

(** The row that [Frame.make] registers. *)
Lemma frame_make_runs (p : Options) :
  0 < frame_w p -> 0 < frame_h p -> 0 < f_width p ->
  build (make p)
  = Ok (mkQComponent
          [mkQGeometry poly "frame"
             (Translate
                (Rotate
                   (Union
                      [Box (0 - frame_w p / 2) (4.5 - f_width p / 2)
                           (0 + frame_w p / 2) (4.5 + f_width p / 2);
                       Box (4.5 - f_width p / 2) (0 - frame_h p / 2)
                           (4.5 + f_width p / 2) (0 + frame_h p / 2);
                       Box (-4.5 - f_width p / 2) (0 - frame_h p / 2)
                           (-4.5 + f_width p / 2) (0 + frame_h p / 2);
                       Box (0 - frame_w p / 2) (-4.5 - f_width p / 2)
                           (0 + frame_w p / 2) (-4.5 + f_width p / 2)])
                   (orientation p))
                (pos_x p) (pos_y p))
             (kw_layer (layer p) kw)]
          []).
Proof.
  intros Hw Hh Hf.
  unfold build, make, core.bind, lift.
  rewrite !rectangle_ok by assumption.
  reflexivity.
Qed.

(** The area of the four default border rectangles together. *)
Lemma frame_rects_area :
  rects_area
    [mkrect (-4.5) 4.465 4.5 4.535; mkrect 4.465 (-4.5) 4.535 4.5;
     mkrect (-4.535) (-4.5) (-4.465) 4.5; mkrect (-4.5) (-4.535) 4.5 (-4.465)]
  = 2.5151.
Proof.
  unfold rects_area, rects_area_upto, rect_area, rect_inter.
  cbn [List.length map x0 y0 x1 y1].
  rminmax. lra.
Qed.

(** The same for any line width below the frame size: four strips of
    9 by [f], less the four corner squares of side [f / 2]. *)
Lemma frame_rects_area_any_width (f : R) :
  0 < f < 9 ->
  rects_area
    [mkrect (-4.5) (4.5 - f / 2) 4.5 (4.5 + f / 2);
     mkrect (4.5 - f / 2) (-4.5) (4.5 + f / 2) 4.5;
     mkrect (-4.5 - f / 2) (-4.5) (-4.5 + f / 2) 4.5;
     mkrect (-4.5) (-4.5 - f / 2) 4.5 (-4.5 + f / 2)]
  = 9 * f * 2 + 9 * f * 2 - 4 * (f / 2 * (f / 2)).
Proof.
  intros Hf.
  unfold rects_area, rects_area_upto, rect_area, rect_inter.
  cbn [List.length map x0 y0 x1 y1].
  rminmax. nra.
Qed.

(** The default frame, wherever it is placed. *)
Lemma frame_default_runs (o x y : R) (l : Z) :
  exists q : QGeometry,
    build (make (default_options o x y l)) = Ok (mkQComponent [q] []) /\
    q_kind q = poly /\ q_name q = "frame" /\
    area (q_shape q) = Some 2.5151.
Proof.
  eexists. split.
  - apply frame_make_runs; simpl; lra.
  - repeat split.
    cbn [q_shape area as_rects as_rect option_map frame_w frame_h f_width
         default_options].
    f_equal. rewrite <- frame_rects_area.
    f_equal.
    rminmax.
    repeat (f_equal; try lra).
Qed.

(** C3, as stated: the area of the default frame is not
    [9 * 0.07 * 2 + 9 * 0.07 * 2 - 4 * 0.07^2]. *)
Lemma frame_area_not_as_stated :
  ~ exists (st : QComponent) (q : QGeometry),
      build (make (default_options 0 0 0 1)) = Ok st /\
      entries_of poly st = [q] /\ q_name q = "frame" /\
      area (q_shape q)
      = Some (9 * 0.07 * 2 + 9 * 0.07 * 2 - 4 * (0.07 * 0.07)).
Proof.
  intros (st & q & E & Hq & _ & A).
  destruct (frame_default_runs 0 0 0 1) as (q' & E' & K & _ & A').
  rewrite E' in E. injection E as <-.
  unfold entries_of in Hq. cbn [qgeometry filter] in Hq. rewrite K in Hq.
  cbn [Kind_eqb] in Hq. injection Hq as <-.
  rewrite A' in A. injection A as A. lra.
Qed.

(** C3, amended. The default frame ([frame_w = 9], [frame_h = 9],
    [f_width = 0.07], in millimetres), at any placement, registers exactly
    one row; it is of category [poly], it is named [frame], and its area is
    [9 * 0.07 * 2 + 9 * 0.07 * 2 - 4 * 0.035^2]: the four lines are centred
    on the border, so each corner overlap is a square of side
    [f_width / 2]. *)
Theorem frame_default_area (o x y : R) (l : Z) :
  exists (st : QComponent) (q : QGeometry),
    build (make (default_options o x y l)) = Ok st /\
    qgeometry st = [q] /\ q_kind q = poly /\ q_name q = "frame" /\
    area (q_shape q)
    = Some (9 * 0.07 * 2 + 9 * 0.07 * 2 - 4 * (0.07 / 2 * (0.07 / 2))).
Proof.
  destruct (frame_default_runs o x y l) as (q & E & K & N & A).
  exists (mkQComponent [q] []), q.
  repeat split; try assumption.
  rewrite A. f_equal. lra.
Qed.

(** C9. Whenever [Frame.make] succeeds, and it does for positive sizes,
    its single row is the placed union of four rectangles whose centres
    are [(0, 4.5)], [(4.5, 0)], [(-4.5, 0)] and [(0, -4.5)] whatever
    [frame_w] and [frame_h] are; these lines are centred on the border of
    the [frame_w] by [frame_h] device exactly when
    [frame_w = frame_h = 9]. *)
Theorem frame_line_centers_fixed (p : Options) :
  (0 < frame_w p -> 0 < frame_h p -> 0 < f_width p ->
   exists st : QComponent, build (make p) = Ok st) /\
  (forall st : QComponent,
     build (make p) = Ok st ->
     exists line_top line_left line_right line_bottom : Shape,
       map q_shape (qgeometry st)
       = [Translate
            (Rotate (Union [line_top; line_left; line_right; line_bottom])
                    (orientation p))
            (pos_x p) (pos_y p)] /\
       map center [line_top; line_left; line_right; line_bottom]
       = [Some (0, 4.5); Some (4.5, 0); Some (-4.5, 0); Some (0, -4.5)] /\
       (centered_on_border p [line_top; line_left; line_right; line_bottom]
        <-> frame_w p = 9 /\ frame_h p = 9)).
Proof.
  split.
  - intros Hw Hh Hf. eexists. apply frame_make_runs; assumption.
  - intros st.
    unfold build, make, core.bind, lift.
    destruct (rectangle (frame_w p) (f_width p) 0 4.5) as [t|] eqn:Et;
      [|discriminate].
    destruct (rectangle (f_width p) (frame_h p) 4.5 0) as [l|] eqn:El;
      [|discriminate].
    destruct (rectangle (f_width p) (frame_h p) (-4.5) 0) as [r|] eqn:Er;
      [|discriminate].
    destruct (rectangle (frame_w p) (f_width p) 0 (-4.5)) as [b|] eqn:Eb;
      [|discriminate].
    cbn. intros E. injection E as <-.
    exists t, l, r, b.
    apply rectangle_center in Et, El, Er, Eb.
    split; [reflexivity|].
    unfold centered_on_border, border_midpoints.
    cbn [map]. rewrite Et, El, Er, Eb.
    split; [reflexivity|].
    split.
    + intros H. injection H as H1 H2 H3 H4. lra.
    + intros [Hw Hh]. rewrite Hw, Hh.
      replace (9 / 2) with 4.5 by lra.
      replace (- (9) / 2) with (-4.5) by lra.
      reflexivity.
Qed.

(** The default frame: its four lines are centred on the border. *)
Lemma frame_line_centers_fixed_default :
  exists line_top line_left line_right line_bottom : Shape,
    map center [line_top; line_left; line_right; line_bottom]
    = [Some (0, 4.5); Some (4.5, 0); Some (-4.5, 0); Some (0, -4.5)] /\
    centered_on_border (default_options 0 0 0 1)
      [line_top; line_left; line_right; line_bottom].
Proof.
  destruct (frame_line_centers_fixed (default_options 0 0 0 1)) as [S T].
  destruct S as (st & E); [simpl; lra | simpl; lra | simpl; lra |].
  destruct (T st E) as (t & l & r & b & _ & C & B).
  exists t, l, r, b. split; [exact C|].
  apply B. split; reflexivity.
Defined.

End FrameBuild.

(** ** The [Markers] component *)

Section MarkersBuild.

Import draw core Markers.

(** C7. With the default options, at any orientation and on any layer,
    [Markers.make] registers exactly two rows, both of category [poly]:
    [markers], the placed union of four rectangles of size [marker_w] by
    [marker_h], added as conductor, and [markers_pk], registered with
    [subtract = True].  The centres of the four rectangles are
    [(pos_x / 2 +- marker_sep, pos_y / 2 +- marker_sep)]; the registered
    [markers] shape is their union under the component's placement, and at
    [orientation = 0] it covers exactly the points of the union. *)
Theorem markers_default_rows (o : R) (l : Z) :
  let p := default_options o l in
  exists (m1 m2 m3 m4 : Shape) (qm qpk : QGeometry),
    build (make p) = Ok (mkQComponent [qm; qpk] []) /\
    (q_kind qm = poly /\ q_name qm = "markers" /\
     subtract (q_attrs qm) = false) /\
    (q_kind qpk = poly /\ q_name qpk = "markers_pk" /\
     subtract (q_attrs qpk) = true) /\
    q_shape qm
    = Translate (Rotate (Union [m1; m2; m3; m4]) (orientation p))
        (pos_x p / 2) (pos_y p / 2) /\
    (rectangle (marker_w p) (marker_h p)
       (pos_x p / 2 + marker_sep p) (pos_y p / 2 + marker_sep p) = Ok m1 /\
     rectangle (marker_w p) (marker_h p)
       (pos_x p / 2 - marker_sep p) (pos_y p / 2 + marker_sep p) = Ok m2 /\
     rectangle (marker_w p) (marker_h p)
       (pos_x p / 2 + marker_sep p) (pos_y p / 2 - marker_sep p) = Ok m3 /\
     rectangle (marker_w p) (marker_h p)
       (pos_x p / 2 - marker_sep p) (pos_y p / 2 - marker_sep p) = Ok m4) /\
    map center [m1; m2; m3; m4]
    = [Some (pos_x p / 2 + marker_sep p, pos_y p / 2 + marker_sep p);
       Some (pos_x p / 2 - marker_sep p, pos_y p / 2 + marker_sep p);
       Some (pos_x p / 2 + marker_sep p, pos_y p / 2 - marker_sep p);
       Some (pos_x p / 2 - marker_sep p, pos_y p / 2 - marker_sep p)] /\
    placed (orientation p) (pos_x p / 2) (pos_y p / 2)
      (Union [m1; m2; m3; m4]) (q_shape qm) /\
    (o = 0 ->
     forall pt : point, pts (q_shape qm) pt <-> pts (Union [m1; m2; m3; m4]) pt).
Proof.
  intros p.
  unfold build, make, core.bind, lift.
  destruct (rectangle (marker_w p) (marker_h p)
              (pos_x p / 2 + marker_sep p) (pos_y p / 2 + marker_sep p))
    as [m1|e] eqn:E1;
    [|rewrite rectangle_ok in E1 by (simpl; lra); discriminate].
  destruct (rectangle (marker_w p) (marker_h p)
              (pos_x p / 2 - marker_sep p) (pos_y p / 2 + marker_sep p))
    as [m2|e] eqn:E2;
    [|rewrite rectangle_ok in E2 by (simpl; lra); discriminate].
  destruct (rectangle (marker_w p) (marker_h p)
              (pos_x p / 2 + marker_sep p) (pos_y p / 2 - marker_sep p))
    as [m3|e] eqn:E3;
    [|rewrite rectangle_ok in E3 by (simpl; lra); discriminate].
  destruct (rectangle (marker_w p) (marker_h p)
              (pos_x p / 2 - marker_sep p) (pos_y p / 2 - marker_sep p))
    as [m4|e] eqn:E4;
    [|rewrite rectangle_ok in E4 by (simpl; lra); discriminate].
  destruct (rectangle (markers_gap p) (markers_gap p) (pos_x p / 2) (pos_y p / 2))
    as [pk|e] eqn:E5;
    [|rewrite rectangle_ok in E5 by (simpl; lra); discriminate].
  pose proof (rectangle_center _ _ _ _ _ E1) as C1.
  pose proof (rectangle_center _ _ _ _ _ E2) as C2.
  pose proof (rectangle_center _ _ _ _ _ E3) as C3.
  pose proof (rectangle_center _ _ _ _ _ E4) as C4.
  exists m1, m2, m3, m4. eexists. eexists.
  split; [reflexivity|].
  cbn [q_kind q_name q_attrs q_shape subtract kw_layer kw_subtract kw map].
  rewrite C1, C2, C3, C4.
  split; [repeat split|].
  split; [repeat split|].
  split; [reflexivity|].
  split; [repeat split; reflexivity|].
  split; [reflexivity|].
  split.
  - exact (placed_rotate_translate (orientation p) (pos_x p / 2) (pos_y p / 2)
             (Union [m1; m2; m3; m4])).
  - intros -> pt.
    change (pos_x p / 2) with (0 / 2). change (pos_y p / 2) with (0 / 2).
    replace (0 / 2) with 0 by field.
    apply pts_rotate_translate_0.
Qed.

End MarkersBuild.

(** ** The inductor of [FluxoniumPocket] and [L_tot] *)

Section PocketInductor.

Import draw core FluxoniumPocket.

(** The registered inductor line: it runs from [+L_tot / 2] down to
    [-L_tot / 2]. *)
Lemma make_pocket_inductor (p : Options) :
  pocket_ok p ->
  exists st : QComponent,
    build (make_pocket p) = Ok st /\
    L_tot p = Ok (l_inductance p * l_width p / l_ind_per_square p) /\
    shape_named junction "inductor" st
    = Some (Translate
              (Rotate
                 (LineString
                    [(pad_width p / 2 + l_arm_length p + l_fillet p,
                      l_inductance p * l_width p / l_ind_per_square p / 2);
                     (pad_width p / 2 + l_arm_length p + l_fillet p,
                      - (l_inductance p * l_width p / l_ind_per_square p) / 2)])
                 (orientation p))
              (pos_x p) (pos_y p)).
Proof.
  intros (H1 & H2 & H3 & H4 & H5 & H6 & H7 & H8 & H9).
  unfold build, make_pocket, core.bind, lift, L_tot, poly_seg.
  rewrite !rectangle_ok by assumption.
  rewrite truediv_ok by assumption.
  eexists. split; [reflexivity|]. split; reflexivity.
Qed.

Lemma with_inductance_pocket_ok (l s : R) :
  s <> 0 -> pocket_ok (with_inductance l s default_options).
Proof. intros Hs. unfold pocket_ok; simpl; repeat split; lra. Qed.

(** C5, as stated: halving [l_inductance] alone moves the registered
    inductor line.  The point [(0.0625, 0.05)] is its upper end with the
    default [l_inductance = 200]; with [l_inductance = 100] the line stops
    at [0.025]. *)
Lemma make_pocket_depends_on_L_tot :
  let p := default_options in
  let q := with_inductance 100 2 default_options in
  same_but_inductance p q /\
  exists (st1 st2 : QComponent) (s1 s2 : Shape),
    build (make_pocket p) = Ok st1 /\
    build (make_pocket q) = Ok st2 /\
    shape_named junction "inductor" st1 = Some s1 /\
    shape_named junction "inductor" st2 = Some s2 /\
    pts s1 (0.0625, 0.05) /\ ~ pts s2 (0.0625, 0.05).
Proof.
  cbn zeta. split; [reflexivity|].
  destruct (make_pocket_inductor default_options) as (st1 & E1 & _ & S1).
  { apply (with_inductance_pocket_ok 200 2). lra. }
  destruct (make_pocket_inductor (with_inductance 100 2 default_options))
    as (st2 & E2 & _ & S2).
  { apply with_inductance_pocket_ok. lra. }
  exists st1, st2. eexists. eexists.
  split; [exact E1|]. split; [exact E2|].
  split; [exact S1|]. split; [exact S2|].
  cbn [pts orientation pos_x pos_y default_options with_inductance].
  rewrite !rot_opp_0.
  unfold shift, on_path, on_segment. simpl.
  split.
  - left. exists 0. lra.
  - intros [(t & Ht & Hx & Hy)|[]]. lra.
Qed.

(** The registered top arm of the inductor: the arm rectangle and the
    fillet, both moved up by [L_tot / 2]. *)
Lemma make_pocket_top_arm (p : Options) :
  pocket_ok p ->
  exists (st : QComponent) (seg arm : Shape),
    build (make_pocket p) = Ok st /\
    poly_seg p = Ok seg /\
    rectangle (l_arm_length p) (l_width p) 0 0 = Ok arm /\
    shape_named poly "poly_wire_top" st
    = Some (Translate
              (Rotate
                 (Union
                    [Translate arm ((pad_width p + l_arm_length p) / 2)
                       (l_inductance p * l_width p / l_ind_per_square p / 2
                        + l_fillet p);
                     Translate seg (l_arm_length p + pad_width p / 2)
                       (l_inductance p * l_width p / l_ind_per_square p / 2)])
                 (orientation p))
              (pos_x p) (pos_y p)).
Proof.
  intros (H1 & H2 & H3 & H4 & H5 & H6 & H7 & H8 & H9).
  unfold build, make_pocket, core.bind, lift, L_tot.
  unfold poly_seg at 1.
  rewrite !rectangle_ok by assumption.
  rewrite truediv_ok by assumption.
  eexists. eexists. eexists. split; [reflexivity|].
  split; [unfold poly_seg; rewrite !rectangle_ok by assumption; reflexivity|].
  split; reflexivity.
Qed.

(** C5, amended. Two option tables that differ only in [l_inductance]
    and [l_ind_per_square] and have the same [L_tot] give [make_pocket] the
    same outcome: the same rows with the same shapes, or the same error.
    The shapes are derived from [L_tot]: before placement the registered
    inductor line runs from [(pad_width / 2 + l_arm_length + l_fillet,
    +L_tot / 2)] to [(pad_width / 2 + l_arm_length + l_fillet,
    -L_tot / 2)], and the registered [poly_wire_top] is the union of the
    arm rectangle moved to [((pad_width + l_arm_length) / 2,
    L_tot / 2 + l_fillet)] and the fillet moved to
    [(l_arm_length + pad_width / 2, L_tot / 2)]. *)
Theorem make_pocket_geometry_through_L_tot (p q : Options) :
  same_but_inductance p q ->
  L_tot p = L_tot q ->
  result_map geometry_of (build (make_pocket p))
  = result_map geometry_of (build (make_pocket q)) /\
  (pocket_ok p ->
   exists (st : QComponent) (Ltot : R) (seg arm : Shape),
     build (make_pocket p) = Ok st /\ L_tot p = Ok Ltot /\
     poly_seg p = Ok seg /\
     rectangle (l_arm_length p) (l_width p) 0 0 = Ok arm /\
     shape_named junction "inductor" st
     = Some (Translate
               (Rotate
                  (LineString
                     [(pad_width p / 2 + l_arm_length p + l_fillet p, Ltot / 2);
                      (pad_width p / 2 + l_arm_length p + l_fillet p, - Ltot / 2)])
                  (orientation p))
               (pos_x p) (pos_y p)) /\
     shape_named poly "poly_wire_top" st
     = Some (Translate
               (Rotate
                  (Union
                     [Translate arm ((pad_width p + l_arm_length p) / 2)
                        (Ltot / 2 + l_fillet p);
                      Translate seg (l_arm_length p + pad_width p / 2)
                        (Ltot / 2)])
                  (orientation p))
               (pos_x p) (pos_y p))).
Proof.
  intros S HL. split.
  - unfold same_but_inductance in S.
    remember (l_inductance q) as a eqn:Ea.
    remember (l_ind_per_square q) as b eqn:Eb.
    clear Ea Eb. subst q.
    unfold build, make_pocket, core.bind, lift.
    rewrite <- HL.
    unfold poly_seg.
    cbn [with_inductance chip pos_x pos_y width height pad_gap inductor_width
         pad_width pad_height pad_radius l_width l_arm_length l_fillet L_j
         pocket_width pocket_height orientation l_inductance].
    destruct (rectangle (pad_width p) (pad_height p - pad_radius p) 0 0);
      [|reflexivity].
    destruct (L_tot p); [|reflexivity].
    destruct (rectangle (l_fillet p + l_width p / 2) (2 * l_fillet p + l_width p)
                (- (l_fillet p + l_width p / 2) / 2) 0); [|reflexivity].
    destruct (rectangle (2 * l_fillet p + l_width p) (l_fillet p + l_width p / 2)
                0 (- (l_fillet p + l_width p / 2) / 2)); [|reflexivity].
    destruct (rectangle (l_arm_length p) (l_width p) 0 0); [|reflexivity].
    destruct (rectangle (pocket_width p) (pocket_height p) 0 0); [|reflexivity].
    reflexivity.
  - intros V.
    destruct (make_pocket_inductor p V) as (st & E & L & I).
    destruct (make_pocket_top_arm p V) as (st' & seg & arm & E' & S' & A & T).
    rewrite E in E'. injection E' as <-.
    exists st, (l_inductance p * l_width p / l_ind_per_square p), seg, arm.
    repeat split; assumption.
Qed.

(** [l_inductance = 400] with [l_ind_per_square = 4] gives the same
    [L_tot] as the defaults 200 and 2. *)
Lemma make_pocket_geometry_through_L_tot_default :
  result_map geometry_of (build (make_pocket default_options))
  = result_map geometry_of
      (build (make_pocket (with_inductance 400 4 default_options))) /\
  exists (st : QComponent) (Ltot : R),
    build (make_pocket default_options) = Ok st /\
    L_tot default_options = Ok Ltot /\
    shape_named junction "inductor" st
    = Some (Translate
              (Rotate
                 (LineString
                    [(0.015 / 2 + 0.05 + 0.005, Ltot / 2);
                     (0.015 / 2 + 0.05 + 0.005, - Ltot / 2)])
                 0)
              0 0).
Proof.
  destruct (make_pocket_geometry_through_L_tot default_options
              (with_inductance 400 4 default_options)) as [G H].
  - reflexivity.
  - unfold L_tot. rewrite !truediv_ok by (simpl; lra).
    f_equal. simpl. lra.
  - split; [exact G|].
    destruct (H (default_pocket_ok false false false))
      as (st & Ltot & seg & arm & E & L & _ & _ & I & _).
    exists st, Ltot. repeat split; assumption.
Defined.

End PocketInductor.

(** ** Placement of the inductor arms of [FluxoniumPocket] *)

Section PocketWires.

Import draw core FluxoniumPocket.

(** The fillet lies within its outer circle. *)
Lemma poly_seg_in_disc (p : Options) (seg : Shape) (q : point) :
  poly_seg p = Ok seg ->
  pts seg q ->
  fst q * fst q + snd q * snd q
  <= (l_fillet p + l_width p / 2) * (l_fillet p + l_width p / 2).
Proof.
  unfold poly_seg.
  destruct (rectangle (l_fillet p + l_width p / 2) (2 * l_fillet p + l_width p)
              (- (l_fillet p + l_width p / 2) / 2) 0); [|discriminate].
  destruct (rectangle (2 * l_fillet p + l_width p) (l_fillet p + l_width p / 2)
              0 (- (l_fillet p + l_width p / 2) / 2)); [|discriminate].
  intros E. injection E as <-.
  unfold draw.subtract, Point_buffer. cbn [pts fst snd].
  intros [[[[H _] _] _] _].
  replace (fst q * fst q + snd q * snd q)
    with ((fst q - 0) * (fst q - 0) + (snd q - 0) * (snd q - 0)) by ring.
  exact H.
Qed.

(** The two arms as [make_pocket] registers them: the top arm is placed,
    the bottom arm is the local shape as drawn. *)
Lemma make_pocket_wires (p : Options) :
  pocket_ok p ->
  exists (st : QComponent) (seg : Shape),
    build (make_pocket p) = Ok st /\
    poly_seg p = Ok seg /\
    let Ltot := l_inductance p * l_width p / l_ind_per_square p in
    let arm := Box (0 - l_arm_length p / 2) (0 - l_width p / 2)
                   (0 + l_arm_length p / 2) (0 + l_width p / 2) in
    shape_named poly "poly_wire_top" st
    = Some (translate (rotate (poly_wire_top_local p Ltot seg arm) (orientation p))
              (pos_x p) (pos_y p)) /\
    shape_named poly "poly_wire_bot" st
    = Some (poly_wire_bot_local p Ltot seg arm).
Proof.
  intros (H1 & H2 & H3 & H4 & H5 & H6 & H7 & H8 & H9).
  unfold build, make_pocket, core.bind, lift, L_tot.
  unfold poly_seg at 1.
  rewrite !rectangle_ok by assumption.
  rewrite truediv_ok by assumption.
  eexists. eexists. split; [reflexivity|].
  split.
  - unfold poly_seg. rewrite !rectangle_ok by assumption. reflexivity.
  - split; reflexivity.
Qed.

(** C1. The default pocket built at the origin and the same pocket built
    at [pos_x = 1], both at [orientation = 0]: the registered
    [poly_wire_top] of the second is the first one moved by the placement,
    and the registered [poly_wire_bot] is not; it is the very same shape in
    both builds. *)
Theorem make_pocket_wire_bot_not_placed :
  let p0 := default_options in
  let p1 := with_placement 0 1 0 default_options in
  exists (st0 st1 : QComponent) (top0 top1 bot0 bot1 : Shape),
    build (make_pocket p0) = Ok st0 /\
    build (make_pocket p1) = Ok st1 /\
    shape_named poly "poly_wire_top" st0 = Some top0 /\
    shape_named poly "poly_wire_top" st1 = Some top1 /\
    shape_named poly "poly_wire_bot" st0 = Some bot0 /\
    shape_named poly "poly_wire_bot" st1 = Some bot1 /\
    placed 0 1 0 top0 top1 /\
    bot1 = bot0 /\
    ~ placed 0 1 0 bot0 bot1.
Proof.
  cbn zeta.
  destruct (make_pocket_wires default_options) as (st0 & seg0 & E0 & S0 & T0 & B0).
  { apply (with_inductance_pocket_ok 200 2). lra. }
  destruct (make_pocket_wires (with_placement 0 1 0 default_options))
    as (st1 & seg1 & E1 & S1 & T1 & B1).
  { unfold pocket_ok; simpl; repeat split; lra. }
  change (poly_seg (with_placement 0 1 0 default_options))
    with (poly_seg default_options) in S1.
  rewrite S0 in S1. injection S1 as <-.
  exists st0, st1. eexists. eexists. eexists. eexists.
  split; [exact E0|]. split; [exact E1|].
  split; [exact T0|]. split; [exact T1|].
  split; [exact B0|]. split; [exact B1|].
  split; [|split; [reflexivity|]].
  - intros pt.
    change (orientation default_options) with 0.
    change (pos_x default_options) with 0.
    change (pos_y default_options) with 0.
    rewrite pts_rotate_translate_0.
    apply (placed_rotate_translate 0 1 0).
  - intros P.
    specialize (P (0.0325, -0.055)). destruct P as [P _].
    assert (In0 : pts (poly_wire_bot_local default_options
                         (l_inductance default_options * l_width default_options
                          / l_ind_per_square default_options) seg0
                         (Box (0 - l_arm_length default_options / 2)
                              (0 - l_width default_options / 2)
                              (0 + l_arm_length default_options / 2)
                              (0 + l_width default_options / 2)))
                      (0.0325, -0.055)).
    { unfold poly_wire_bot_local, draw.union, translate, rotate.
      cbn [pts]. right. left.
      unfold shift. simpl.
      unfold Rmin, Rmax.
      repeat destruct (Rle_dec _ _); lra. }
    specialize (P In0). clear In0.
    unfold place in P. rewrite rot_0 in P.
    unfold poly_wire_bot_local, draw.union, translate, rotate in P.
    cbn [pts] in P.
    destruct P as [P|[P|[]]].
    + apply (poly_seg_in_disc default_options seg0 _ S0) in P.
      rewrite rot_norm in P.
      unfold shift in P. simpl in P. lra.
    + unfold shift in P. simpl in P.
      unfold Rmin, Rmax in P.
      repeat destruct (Rle_dec _ _); lra.
Qed.

End PocketWires.

(** ** The [JunctionArray] component *)

Section JunctionArrayBuild.

Import draw core JunctionArray.

Lemma int_INR_succ (n : nat) : int (INR n + 1) = Z.of_nat (S n).
Proof.
  rewrite <- S_INR. unfold int.
  destruct (Rle_dec 0 (INR (S n))) as [_|H].
  - apply Int_part_INR.
  - exfalso. apply H, pos_INR.
Qed.

Lemma range_int_succ (n : nat) : range (int (INR n + 1)) = seq 0 (S n).
Proof. unfold range. rewrite int_INR_succ, Nat2Z.id. reflexivity. Qed.

(** The loop from index [a] over [k] more indices, the last of which is
    [n]: one pad row per index and one junction row per index below
    [n]. *)
Lemma jj_loop_runs (p : Options) (jj_pad rect_jj : Shape) (n : nat) :
  n_junction (array_unit p) = INR n ->
  forall (k a : nat) (y : R) (st : QComponent),
    (a + k = S n)%nat ->
    exists rows : list QGeometry,
      jj_loop p jj_pad rect_jj (seq a k) y st
      = Ok (tt, mkQComponent (qgeometry st ++ rows)%list (pins st)) /\
      map q_name (filter (fun q => Kind_eqb (q_kind q) poly) rows)
      = map jj_pad_name (seq a k) /\
      map junction_summary (filter (fun q => Kind_eqb (q_kind q) junction) rows)
      = map (rect_jj_summary p) (seq a (k - 1)) /\
      filter (fun q => Kind_eqb (q_kind q) path) rows = [].
Proof.
  intros Hn. induction k as [|k IH]; intros a y st Hk.
  - exists []. cbn [seq jj_loop ret]. rewrite app_nil_r.
    destruct st. repeat split.
  - cbn [seq jj_loop]. unfold core.bind at 1.
    unfold add_qgeometry at 1. cbn [map fst snd qgeometry pins].
    unfold core.bind at 1.
    destruct (Req_dec_T (INR a) (n_junction (array_unit p))) as [He|Hne].
    + rewrite Hn in He. apply INR_eq in He.
      assert (k = 0)%nat as -> by lia.
      cbn [ret seq jj_loop qgeometry pins].
      eexists. split; [reflexivity|]. repeat split.
    + assert (a <> n) by (intros ->; apply Hne; symmetry; exact Hn).
      destruct k as [|k]; [lia|].
      unfold add_qgeometry at 1. cbn [map fst snd qgeometry pins].
      match goal with
      | |- context [jj_loop p jj_pad rect_jj (seq (S a) (S k)) ?y' ?st'] =>
          destruct (IH (S a) y' st' ltac:(lia)) as (rows & E & Np & Nj & Nq)
      end.
      rewrite E. cbn [qgeometry pins].
      eexists. split.
      * rewrite <- !app_assoc. reflexivity.
      * cbn [app filter q_kind Kind_eqb map q_name].
        rewrite Np, Nj, Nq.
        replace (S (S k) - 1)%nat with (S (S k - 1)) by lia.
        repeat split.
Qed.

(** The array pass, for an integer [n_junction = n] and a pad that
    [draw.box] accepts. *)
Lemma make_jj_array_runs (p : Options) (n : nat) :
  n_junction (array_unit p) = INR n ->
  array_ok p ->
  exists rows : list QGeometry,
    make_jj_array p empty = Ok (tt, mkQComponent rows []) /\
    map q_name (filter (fun q => Kind_eqb (q_kind q) poly) rows)
    = map jj_pad_name (seq 0 (n + 1)) /\
    map junction_summary (filter (fun q => Kind_eqb (q_kind q) junction) rows)
    = map (rect_jj_summary p) (seq 0 n) /\
    filter (fun q => Kind_eqb (q_kind q) path) rows = [].
Proof.
  intros Hn [Hx Hy].
  unfold make_jj_array, core.bind, lift.
  rewrite box_ok by lra.
  rewrite Hn, range_int_succ.
  match goal with
  | |- context [jj_loop p ?pad ?rj (seq 0 (S n)) 0 empty] =>
      destruct (jj_loop_runs p pad rj n Hn (S n) 0%nat 0 empty eq_refl)
        as (rows & E & Np & Nj & Nq)
  end.
  rewrite E. cbn [qgeometry pins empty app].
  exists rows.
  split; [reflexivity|].
  replace (n + 1)%nat with (S n) by lia.
  replace (S n - 1)%nat with n in Nj by lia.
  repeat split; assumption.
Qed.

(** The ground pass appends one row, whatever is registered already, when
    [draw.box] accepts the ground box. *)
Lemma make_buffer_ground_runs (p : Options) (st : QComponent) :
  ground_ok p ->
  exists g : QGeometry,
    make_buffer_ground p st
    = Ok (tt, mkQComponent (qgeometry st ++ [g])%list (pins st)) /\
    q_kind g = poly /\ q_name g = "ground_etch" /\
    subtract (q_attrs g) = true.
Proof.
  intros [G1 G2].
  unfold make_buffer_ground, core.bind, lift.
  rewrite box_ok by lra.
  unfold add_qgeometry. cbn [map fst snd].
  eexists. split; [reflexivity|]. repeat split.
Qed.

Lemma default_array_ok (o x y : R) (l : Z) : array_ok (default_options o x y l).
Proof. unfold array_ok. simpl. split; lra. Qed.

Lemma int_INR_nat (n : nat) : int (INR n) = Z.of_nat n.
Proof.
  unfold int. destruct (Rle_dec 0 (INR n)) as [_|H].
  - apply Int_part_INR.
  - exfalso. apply H, pos_INR.
Qed.

Lemma default_ground_ok (o x y : R) (l : Z) : ground_ok (default_options o x y l).
Proof.
  assert (E1 : int (10 + 1) = 11%Z).
  { replace (10 + 1) with (INR 10 + 1) by (simpl; lra). apply int_INR_succ. }
  assert (E2 : int 10 = 10%Z).
  { replace 10 with (INR 10) by (simpl; lra). apply int_INR_nat. }
  unfold ground_ok. cbn [array_unit default_options n_junction array_pad_x
                         array_pad_y array_gap_y ground_gap_x ground_gap_y].
  rewrite E1, E2. split; lra.
Qed.

Lemma filter_snoc {A : Type} (f : A -> bool) (l : list A) (x : A) :
  filter f (l ++ [x]) = (filter f l ++ (if f x then [x] else []))%list.
Proof. rewrite filter_app. reflexivity. Qed.

(** C10, as stated: with the default [n_junction = 10], the poly rows of
    [make] are not just the eleven pads. *)
Lemma junction_array_make_poly_rows :
  ~ exists st : QComponent,
      build (make (default_options 0 0 0 1)) = Ok st /\
      map q_name (entries_of poly st) = map jj_pad_name (seq 0 (10 + 1)).
Proof.
  intros (st & E & N).
  destruct (make_jj_array_runs (default_options 0 0 0 1) 10)
    as (rows & E1 & Np & _).
  { simpl. lra. }
  { apply default_array_ok. }
  destruct (make_buffer_ground_runs (default_options 0 0 0 1)
              (mkQComponent rows []) (default_ground_ok 0 0 0 1))
    as (g & E2 & Kg & _).
  unfold build, make, core.bind in E. rewrite E1, E2 in E.
  cbn [qgeometry pins] in E. injection E as <-.
  unfold entries_of in N. cbn [qgeometry] in N.
  rewrite filter_snoc, Kg, map_app, Np in N. cbn [Kind_eqb map] in N.
  apply (f_equal (@List.length string)) in N.
  rewrite length_app in N. cbn [List.length] in N. lia.
Qed.

(** C10, amended. For an integer [n_junction = n >= 0] and a pad of
    positive width and height (so that [draw.box] accepts it),
    [make_jj_array] registers exactly [n + 1] poly rows, named [jj_pad_0]
    to [jj_pad_n], and exactly [n] junction rows, named [rect_jj_0] to
    [rect_jj_(n-1)], the row of index [idx] with [width] equal to
    [junction_thickness] and [gds_cell_name] equal to
    [FakeJunction_0] followed by [idx + 1]; it registers nothing else.
    When the ground box has a positive width and height too, [make]
    registers these rows and then one more poly row, [ground_etch], with
    [subtract = True]. *)
Theorem junction_array_rows (p : Options) (n : nat) :
  n_junction (array_unit p) = INR n ->
  array_ok p ->
  exists st : QComponent,
    build (make_jj_array p) = Ok st /\
    map q_name (entries_of poly st) = map jj_pad_name (seq 0 (n + 1)) /\
    map junction_summary (entries_of junction st)
    = map (rect_jj_summary p) (seq 0 n) /\
    entries_of path st = [] /\
    pins st = [] /\
    (ground_ok p ->
     exists (st' : QComponent) (g : QGeometry),
       build (make p) = Ok st' /\
       qgeometry st' = (qgeometry st ++ [g])%list /\
       pins st' = [] /\
       q_kind g = poly /\ q_name g = "ground_etch" /\
       subtract (q_attrs g) = true).
Proof.
  intros Hn A.
  destruct (make_jj_array_runs p n Hn A) as (rows & E & Np & Nj & Nq).
  exists (mkQComponent rows []).
  unfold entries_of. cbn [qgeometry pins].
  split; [unfold build; rewrite E; reflexivity|].
  split; [exact Np|]. split; [exact Nj|]. split; [exact Nq|].
  split; [reflexivity|].
  intros G.
  destruct (make_buffer_ground_runs p (mkQComponent rows []) G)
    as (g & E2 & Kg & Ng & Sg).
  exists (mkQComponent (rows ++ [g])%list []), g.
  split.
  - unfold build, make, core.bind. rewrite E, E2. reflexivity.
  - cbn [qgeometry pins]. repeat split; assumption.
Qed.

(** The default array, [n_junction = 10]: both passes. *)
Lemma junction_array_rows_default :
  exists (st st' : QComponent) (g : QGeometry),
    build (make_jj_array (default_options 0 0 0 1)) = Ok st /\
    map q_name (entries_of poly st) = map jj_pad_name (seq 0 (10 + 1)) /\
    map junction_summary (entries_of junction st)
    = map (rect_jj_summary (default_options 0 0 0 1)) (seq 0 10) /\
    entries_of path st = [] /\
    build (make (default_options 0 0 0 1)) = Ok st' /\
    qgeometry st' = (qgeometry st ++ [g])%list /\
    q_kind g = poly /\ q_name g = "ground_etch" /\
    subtract (q_attrs g) = true.
Proof.
  destruct (junction_array_rows (default_options 0 0 0 1) 10)
    as (st & E & Np & Nj & Nq & _ & G).
  - simpl. lra.
  - apply default_array_ok.
  - destruct (G (default_ground_ok 0 0 0 1)) as (st' & g & E' & Q & _ & Kg & Ng & Sg).
    exists st, st', g. repeat split; assumption.
Defined.

Lemma rot_90 (q : point) : rot 90 q = (- snd q, fst q).
Proof.
  unfold rot. replace (radians 90) with (PI / 2) by (unfold radians; field).
  rewrite cos_PI2, sin_PI2. f_equal; ring.
Qed.

(** The pads of the array are turned about the origin first and stacked
    along the y axis afterwards.  With two pads ([n_junction = 1]) built
    at [orientation = 0] and at [orientation = 90], the registered
    [jj_pad_1] of the second build is not the first one turned by a
    quarter: its offset from [jj_pad_0] stays [(0, 0.06)]. *)
Lemma jj_pad_offset_not_rotated :
  let p0 := with_n_junction 1 (default_options 0 0 0 1) in
  let p1 := with_n_junction 1 (default_options 90 0 0 1) in
  exists (st0 st1 : QComponent) (pad0 pad1 : Shape),
    build (make_jj_array p0) = Ok st0 /\
    build (make_jj_array p1) = Ok st1 /\
    shape_named poly "jj_pad_1" st0 = Some pad0 /\
    shape_named poly "jj_pad_1" st1 = Some pad1 /\
    ~ placed 90 0 0 pad0 pad1.
Proof.
  cbn zeta.
  assert (R1 : forall o : R,
    exists st : QComponent,
      build (make_jj_array (with_n_junction 1 (default_options o 0 0 1))) = Ok st /\
      shape_named poly "jj_pad_1" st
      = Some (Translate
                (Translate (Rotate (Box (- (0.02) / 2) (- (0.05) / 2) (0.02 / 2) (0.05 / 2)) o)
                           0 0)
                0 (0 + (0.05 + 0.01)))).
  { intros o. unfold build, make_jj_array.
    unfold core.bind at 1. unfold lift.
    rewrite box_ok by (simpl; lra).
    change (n_junction (array_unit (with_n_junction 1 (default_options o 0 0 1))))
      with (INR 1).
    rewrite range_int_succ. cbn [seq jj_loop].
    unfold core.bind, add_qgeometry.
    change (n_junction (array_unit (with_n_junction 1 (default_options o 0 0 1))))
      with 1.
    destruct (Req_dec_T (INR 0) 1) as [H|_]; [simpl in H; lra|].
    destruct (Req_dec_T (INR 1) 1) as [_|H]; [|simpl in H; lra].
    eexists. split; reflexivity. }
  destruct (R1 0) as (st0 & E0 & S0).
  destruct (R1 90) as (st1 & E1 & S1).
  exists st0, st1. eexists. eexists.
  split; [exact E0|]. split; [exact E1|].
  split; [exact S0|]. split; [exact S1|].
  intros P. specialize (P (0, 0.06)). destruct P as [P _].
  unfold place in P. rewrite rot_90 in P.
  cbn [pts] in P. rewrite rot_opp_0 in P.
  assert (In0 : Rmin (- (0.02) / 2) (0.02 / 2)
                <= fst (shift (- 0) (- 0) (shift (- 0) (- (0 + (0.05 + 0.01))) (0, 0.06)))
                <= Rmax (- (0.02) / 2) (0.02 / 2) /\
                Rmin (- (0.05) / 2) (0.05 / 2)
                <= snd (shift (- 0) (- 0) (shift (- 0) (- (0 + (0.05 + 0.01))) (0, 0.06)))
                <= Rmax (- (0.05) / 2) (0.05 / 2)).
  { unfold shift. simpl. unfold Rmin, Rmax.
    repeat destruct (Rle_dec _ _); lra. }
  specialize (P In0). clear In0.
  destruct P as [[Px1 Px2] [Py1 Py2]].
  match type of Px1 with
  | _ <= fst (rot ?d ?q) => pose proof (rot_norm d q) as N; set (r := rot d q) in *
  end.
  clearbody r. unfold shift in N. simpl in N.
  unfold Rmin, Rmax in Px1, Px2, Py1, Py2.
  repeat destruct (Rle_dec _ _); try lra.
  assert (fst r * fst r <= 0.01 * 0.01) by nra.
  assert (snd r * snd r <= 0.025 * 0.025) by nra.
  lra.
Qed.

End JunctionArrayBuild.

(** * Further properties of the components *)

(** ** The lines and pins of [FluxoniumPocket] *)

Section PocketLines.

Import draw core FluxoniumPocket.

Lemma charge_ok_cl_sep_03 (f c r : bool) :
  charge_ok (with_cl_sep 0.3 (with_lines f c r default_options)).
Proof. unfold charge_ok. simpl. repeat split; lra. Qed.

Lemma pocket_ok_cl_sep_03 (f c r : bool) :
  pocket_ok (with_cl_sep 0.3 (with_lines f c r default_options)).
Proof. unfold pocket_ok; simpl; repeat split; lra. Qed.

Lemma readout_ok_cl_sep_03 (f c r : bool) :
  readout_ok (with_cl_sep 0.3 (with_lines f c r default_options)).
Proof. unfold readout_ok. simpl. repeat split; lra. Qed.

(** Every combination of the three feature toggles builds, on options no
    builder rejects, and the pin table ends with one pin per enabled line,
    in the order flux bias, charge, readout, with pairwise different
    names: no combination raises [DuplicatePinError].  Every pin has two
    points and is registered with [input_as_norm = True]. *)
Theorem make_pin_names (p : Options) :
  pocket_ok p ->
  (make_cl (charge_line_options p) = true -> charge_ok p) ->
  (make_rol (readout_line_options p) = true -> readout_ok p) ->
  exists st : QComponent,
    build (make p) = Ok st /\
    map pin_name (pins st) = enabled_pin_names p /\
    NoDup (map pin_name (pins st)) /\
    Forall (fun pn => pin_input_as_norm pn = true /\
                      List.length (pin_points pn) = 2%nat) (pins st).
Proof.
  intros V HC HR.
  destruct (make_pocket_runs p empty V) as (r1 & E1 & _).
  unfold build, make, core.bind at 1. rewrite E1.
  unfold enabled_pin_names.
  destruct (make_fbl (flux_bias_line_options p));
    destruct (make_cl (charge_line_options p));
    destruct (make_rol (readout_line_options p));
    try (destruct (HR eq_refl) as (R1 & R2 & R3 & R4));
    try (destruct (HC eq_refl) as (C1 & C2 & C3 & C4));
    unfold core.bind, when, make_flux_bias_line, make_charge_line,
      make_readout_line, core.bind, lift, add_qgeometry, add_pin, ret;
    cbn zeta;
    try rewrite !rectangle_ok by assumption;
    try rewrite !box_ok by lra;
    cbn [rotate_list translate_list map qgeometry pins fst snd existsb app
         empty pin_name String.eqb Ascii.eqb Bool.eqb orb];
    (eexists; split; [reflexivity|]);
    cbn [pins map pin_name app];
    (split; [reflexivity|]);
    (split; [repeat constructor; cbn [In]; intuition discriminate|]);
    repeat constructor.
Qed.

(** All three lines on the default pocket, with the charge line drawn
    upward ([cl_sep = 0.3]). *)
Lemma make_pin_names_default :
  exists st : QComponent,
    build (make (with_cl_sep 0.3 (with_lines true true true default_options)))
    = Ok st /\
    map pin_name (pins st) = ["Flux bias line"; "Charge line"; "Readout line"].
Proof.
  destruct (make_pin_names (with_cl_sep 0.3 (with_lines true true true default_options)))
    as (st & E & N & _).
  - apply pocket_ok_cl_sep_03.
  - intros _. apply charge_ok_cl_sep_03.
  - intros _. apply readout_ok_cl_sep_03.
  - exists st. split; [exact E | exact N].
Defined.

(** [make] is the concatenation of its passes: the rows of [make_pocket],
    then, for each enabled line in the order flux bias, charge, readout,
    the rows and the pin that the line's pass registers when run alone.
    No pass reads or changes what an earlier pass registered. *)
Theorem make_is_concatenation (p : Options) :
  pocket_ok p ->
  (make_cl (charge_line_options p) = true -> charge_ok p) ->
  (make_rol (readout_line_options p) = true -> readout_ok p) ->
  build (make p)
  = Ok (mkQComponent
          (rows_of (make_pocket p)
           ++ (if make_fbl (flux_bias_line_options p)
               then rows_of (make_flux_bias_line p) else [])
           ++ (if make_cl (charge_line_options p)
               then rows_of (make_charge_line p) else [])
           ++ (if make_rol (readout_line_options p)
               then rows_of (make_readout_line p) else []))%list
          ((if make_fbl (flux_bias_line_options p)
            then pins_of (make_flux_bias_line p) else [])
           ++ (if make_cl (charge_line_options p)
               then pins_of (make_charge_line p) else [])
           ++ (if make_rol (readout_line_options p)
               then pins_of (make_readout_line p) else []))%list).
Proof.
  intros V HC HR.
  destruct (make_pocket_runs p empty V) as (r1 & E1 & _).
  unfold rows_of at 1. unfold build at 2.
  unfold build, make, core.bind at 1. rewrite E1.
  cbn [qgeometry pins empty app].
  destruct (make_fbl (flux_bias_line_options p));
    destruct (make_cl (charge_line_options p));
    destruct (make_rol (readout_line_options p));
    try (destruct (HR eq_refl) as (R1 & R2 & R3 & R4));
    try (destruct (HC eq_refl) as (C1 & C2 & C3 & C4));
    unfold rows_of, pins_of, build;
    unfold core.bind, when, make_flux_bias_line, make_charge_line,
      make_readout_line, core.bind, lift, add_qgeometry, add_pin, ret;
    cbn zeta;
    try rewrite !rectangle_ok by assumption;
    try rewrite !box_ok by lra;
    cbn [rotate_list translate_list map qgeometry pins fst snd existsb app
         empty pin_name String.eqb Ascii.eqb Bool.eqb orb];
    rewrite <- ?app_assoc; cbn [app]; rewrite ?app_nil_r;
    reflexivity.
Qed.

(** All three lines on the default pocket, with the charge line drawn
    upward ([cl_sep = 0.3]). *)
Lemma make_is_concatenation_default :
  let p := with_cl_sep 0.3 (with_lines true true true default_options) in
  build (make p)
  = Ok (mkQComponent
          (rows_of (make_pocket p) ++ rows_of (make_flux_bias_line p)
           ++ rows_of (make_charge_line p) ++ rows_of (make_readout_line p))%list
          (pins_of (make_flux_bias_line p) ++ pins_of (make_charge_line p)
           ++ pins_of (make_readout_line p))%list).
Proof.
  apply (make_is_concatenation
           (with_cl_sep 0.3 (with_lines true true true default_options))).
  - apply pocket_ok_cl_sep_03.
  - intros _. apply charge_ok_cl_sep_03.
  - intros _. apply readout_ok_cl_sep_03.
Defined.

(** A zero inductance per square makes [make] raise [ZeroDivisionError]
    once the pad rectangle is drawn; nothing is registered. *)
Theorem make_zero_ind_per_square (p : Options) :
  0 < pad_width p -> 0 < pad_height p - pad_radius p ->
  l_ind_per_square p = 0 ->
  build (make p) = Raise ZeroDivisionError.
Proof.
  intros H1 H2 H3.
  unfold build, make, make_pocket, core.bind, lift, L_tot, truediv.
  rewrite rectangle_ok by assumption.
  destruct (Req_dec_T (l_ind_per_square p) 0) as [_|n]; [reflexivity|contradiction].
Qed.

(** The default pocket with [l_ind_per_square = 0]. *)
Lemma make_zero_ind_per_square_default :
  build (make (with_inductance 200 0 default_options)) = Raise ZeroDivisionError.
Proof.
  apply (make_zero_ind_per_square (with_inductance 200 0 default_options)).
  - simpl. lra.
  - simpl. lra.
  - reflexivity.
Defined.

End PocketLines.

(** ** Shapes of [FluxoniumPocket] *)

Section PocketShapes.

Import draw core FluxoniumPocket.

Lemma rot_opp_180 (q : point) : rot (- (180)) q = (- fst q, - snd q).
Proof.
  unfold rot. replace (radians (- (180))) with (- PI) by (unfold radians; field).
  rewrite cos_neg, sin_neg, cos_PI, sin_PI. f_equal; ring.
Qed.

(** A rotation about the origin commutes with the reflection through it. *)
Lemma rot_reflect (d : R) (q : point) :
  rot d (- fst q, - snd q) = (- fst (rot d q), - snd (rot d q)).
Proof. unfold rot. cbn [fst snd]. f_equal; ring. Qed.

(** The two capacitor pads are point-symmetric about the qubit's position
    [(pos_x, pos_y)], at every orientation: a point lies on the registered
    [pad_top] exactly when its mirror image through the position lies on
    the registered [pad_bot]. *)
Theorem pads_point_symmetric (p : Options) :
  pocket_ok p ->
  exists (st : QComponent) (top bot : Shape),
    build (make_pocket p) = Ok st /\
    shape_named poly "pad_top" st = Some top /\
    shape_named poly "pad_bot" st = Some bot /\
    forall pt : point,
      pts top pt <-> pts bot (2 * pos_x p - fst pt, 2 * pos_y p - snd pt).
Proof.
  intros (H1 & H2 & H3 & H4 & H5 & H6 & H7 & H8 & H9).
  unfold build, make_pocket, core.bind, lift, L_tot, poly_seg.
  rewrite !rectangle_ok by assumption.
  rewrite truediv_ok by assumption.
  eexists. eexists. eexists.
  split; [reflexivity|]. split; [reflexivity|]. split; [reflexivity|].
  intros pt. unfold translate, rotate.
  cbn [q_shape snd pts].
  rewrite rot_opp_180.
  match goal with
  | |- context [rot (- orientation p)
                    (shift (- pos_x p) (- pos_y p)
                       (2 * pos_x p - fst pt, 2 * pos_y p - snd pt))] =>
      replace (shift (- pos_x p) (- pos_y p)
                 (2 * pos_x p - fst pt, 2 * pos_y p - snd pt))
        with (- fst (shift (- pos_x p) (- pos_y p) pt),
              - snd (shift (- pos_x p) (- pos_y p) pt))
        by (unfold shift; cbn [fst snd]; f_equal; ring)
  end.
  rewrite rot_reflect. cbn [fst snd].
  rewrite !Ropp_involutive.
  rewrite <- surjective_pairing.
  reflexivity.
Qed.

(** The default pocket turned by 30 degrees and moved to (1, 2). *)
Lemma pads_point_symmetric_default :
  exists (st : QComponent) (top bot : Shape),
    build (make_pocket (with_placement 30 1 2 default_options)) = Ok st /\
    shape_named poly "pad_top" st = Some top /\
    shape_named poly "pad_bot" st = Some bot /\
    forall pt : point,
      pts top pt <-> pts bot (2 * 1 - fst pt, 2 * 2 - snd pt).
Proof.
  apply (pads_point_symmetric (with_placement 30 1 2 default_options)).
  unfold pocket_ok; simpl; repeat split; lra.
Defined.

(** The registered [poly_wire_bot] does not depend on the placement: the
    same options at any other orientation and position register the very
    same shape, while [poly_wire_top] follows the placement. *)
Theorem poly_wire_bot_ignores_placement (p : Options) (o x y : R) :
  pocket_ok p ->
  exists (st st' : QComponent) (bot top : Shape),
    build (make_pocket p) = Ok st /\
    build (make_pocket (with_placement o x y p)) = Ok st' /\
    shape_named poly "poly_wire_bot" st = Some bot /\
    shape_named poly "poly_wire_bot" st' = Some bot /\
    shape_named poly "poly_wire_top" st'
    = Some (translate (rotate top o) x y) /\
    shape_named poly "poly_wire_top" st
    = Some (translate (rotate top (orientation p)) (pos_x p) (pos_y p)).
Proof.
  intros V.
  assert (V' : pocket_ok (with_placement o x y p)) by exact V.
  destruct (make_pocket_wires p V) as (st & seg & E & S & T & B).
  destruct (make_pocket_wires (with_placement o x y p) V')
    as (st' & seg' & E' & S' & T' & B').
  change (poly_seg (with_placement o x y p)) with (poly_seg p) in S'.
  rewrite S in S'. injection S' as <-.
  exists st, st'. eexists. eexists.
  split; [exact E|]. split; [exact E'|].
  split; [exact B|]. split; [exact B'|].
  split; [exact T'|exact T].
Qed.

(** The default pocket against itself turned by 90 degrees at (1, 2). *)
Lemma poly_wire_bot_ignores_placement_default :
  exists (st st' : QComponent) (bot : Shape),
    build (make_pocket default_options) = Ok st /\
    build (make_pocket (with_placement 90 1 2 default_options)) = Ok st' /\
    shape_named poly "poly_wire_bot" st = Some bot /\
    shape_named poly "poly_wire_bot" st' = Some bot.
Proof.
  destruct (poly_wire_bot_ignores_placement default_options 90 1 2)
    as (st & st' & bot & top & E & E' & B & B' & _).
  - apply (default_pocket_ok false false false).
  - exists st, st', bot. repeat split; assumption.
Defined.

(** The pin transform keeps distances, at every orientation and
    position: the two points of a pin are as far apart as the two points
    it was computed from. *)
Theorem qpin_rotate_translate_isometry (p : Options) (a b : point) :
  dist2 (qpin_rotate_translate p a) (qpin_rotate_translate p b) = dist2 a b.
Proof.
  unfold dist2, qpin_rotate_translate. cbn [fst snd].
  set (t := orientation p * 3.14159 / 180).
  pose proof (sin2_cos2 t) as H. unfold Rsqr in H.
  replace ((fst a - fst b) * (fst a - fst b) + (snd a - snd b) * (snd a - snd b))
    with (((fst a - fst b) * (fst a - fst b) + (snd a - snd b) * (snd a - snd b))
          * (sin t * sin t + cos t * cos t))
    by (rewrite H; ring).
  ring.
Qed.

End PocketShapes.

(** ** The readout line of [FluxoniumPocket] *)

Section PocketFeeders.

Import draw core FluxoniumPocket.

(** A point is where its placed image says it is. *)
Lemma pts_placed_image (s : Shape) (d dx dy : R) (q : point) :
  pts (translate (rotate s d) dx dy) (place d dx dy q) <-> pts s q.
Proof. symmetry. apply placed_rotate_translate. Qed.

(** Solves membership in an axis-aligned box between linear bounds. *)
Ltac box_bounds :=
  unfold Rmin, Rmax in *;
  repeat match goal with
    | |- context [Rle_dec ?a ?b] => destruct (Rle_dec a b)
    | H : context [Rle_dec ?a ?b] |- _ => destruct (Rle_dec a b)
    end;
  repeat split; lra.

(** The readout pass registers the pad and its cutout, and the pad lies
    inside the cutout at every placement when [pad_gap] is not negative. *)
Theorem readout_pad_inside_cutout (p : Options) :
  readout_ok p ->
  0 <= rol_pad_gap (readout_line_options p) ->
  exists (st : QComponent) (pad cutout_pad : Shape),
    build (make_readout_line p) = Ok st /\
    map kind_name (qgeometry st)
    = [(poly, "pad"); (poly, "cutout_pad"); (path, "path"); (path, "path")] /\
    shape_named poly "pad" st = Some pad /\
    shape_named poly "cutout_pad" st = Some cutout_pad /\
    forall pt : point, pts pad pt -> pts cutout_pad pt.
Proof.
  intros (R1 & R2 & R3 & R4) Hg.
  unfold build, make_readout_line, core.bind, lift, add_qgeometry, add_pin.
  rewrite !rectangle_ok by assumption.
  cbn [rotate_list translate_list map qgeometry pins fst snd existsb app empty].
  eexists. eexists. eexists.
  split; [reflexivity|]. split; [reflexivity|].
  split; [reflexivity|]. split; [reflexivity|].
  intros pt. unfold translate, rotate.
  cbn [q_shape snd pts].
  match goal with
  | |- context [shift ?a ?b (rot ?d ?v)] => set (q := shift a b (rot d v))
  end.
  intros [[X1 X2] [Y1 Y2]].
  box_bounds.
Qed.

(** The default readout line. *)
Lemma readout_pad_inside_cutout_default :
  exists (st : QComponent) (pad cutout_pad : Shape),
    build (make_readout_line default_options) = Ok st /\
    map kind_name (qgeometry st)
    = [(poly, "pad"); (poly, "cutout_pad"); (path, "path"); (path, "path")] /\
    shape_named poly "pad" st = Some pad /\
    shape_named poly "cutout_pad" st = Some cutout_pad /\
    forall pt : point, pts pad pt -> pts cutout_pad pt.
Proof.
  apply (readout_pad_inside_cutout default_options).
  - unfold readout_ok. simpl. repeat split; lra.
  - simpl. lra.
Defined.

(** The readout line ends on the pad: the inner end of the line,
    [(0, - pad_height - pocket_height / 2 - pad_sep - pad_gap)] in the local
    frame, lies on the registered line and on the registered pad, at every
    placement. *)
Theorem readout_line_meets_pad (p : Options) :
  readout_ok p ->
  let pr := readout_line_options p in
  let b := (0, - rol_pad_height pr - pocket_height p / 2 - rol_pad_sep pr
               - rol_pad_gap pr) in
  exists (st : QComponent) (pad line : Shape),
    build (make_readout_line p) = Ok st /\
    shape_named poly "pad" st = Some pad /\
    shape_named path "path" st = Some line /\
    pts pad (place (orientation p) (pos_x p) (pos_y p) b) /\
    pts line (place (orientation p) (pos_x p) (pos_y p) b).
Proof.
  intros (R1 & R2 & R3 & R4) pr b.
  unfold build, make_readout_line, core.bind, lift, add_qgeometry, add_pin.
  rewrite !rectangle_ok by assumption.
  cbn [rotate_list translate_list map qgeometry pins fst snd existsb app empty].
  eexists. eexists. eexists.
  split; [reflexivity|]. split; [reflexivity|]. split; [reflexivity|].
  cbn [q_shape snd].
  split.
  - apply pts_placed_image. unfold translate. cbn [pts].
    unfold shift, b. cbn [fst snd]. fold pr.
    box_bounds.
  - apply pts_placed_image. cbn [pts on_path]. left.
    exists 1. unfold b. cbn [fst snd]. fold pr.
    repeat split; lra.
Qed.

(** The default readout line turned by 45 degrees. *)
Lemma readout_line_meets_pad_default :
  exists (st : QComponent) (pad line : Shape),
    build (make_readout_line (with_placement 45 0 0 default_options)) = Ok st /\
    shape_named poly "pad" st = Some pad /\
    shape_named path "path" st = Some line /\
    pts pad (place 45 0 0 (0, - (0.05) - 0.8 / 2 - 0.02 - 0.01)) /\
    pts line (place 45 0 0 (0, - (0.05) - 0.8 / 2 - 0.02 - 0.01)).
Proof.
  apply (readout_line_meets_pad (with_placement 45 0 0 default_options)).
  unfold readout_ok. simpl. repeat split; lra.
Defined.

End PocketFeeders.

(** ** Pins against the drawn lines *)

Section PinsOnLines.

Import draw core FluxoniumPocket.

Lemma qpin_rotate_translate_at_0 (p : Options) (x : point) :
  orientation p = 0 ->
  qpin_rotate_translate p x = (fst x + pos_x p, snd x + pos_y p).
Proof.
  intros H. unfold qpin_rotate_translate. rewrite H.
  replace (0 * 3.14159 / 180) with 0 by field.
  rewrite cos_0, sin_0. f_equal; ring.
Qed.

(** At [orientation = 0] a pin point computed from a point of a local
    shape lies on the placed shape. *)
Lemma pts_qpin_at_0 (p : Options) (s : Shape) (x : point) :
  orientation p = 0 ->
  pts s x ->
  pts (translate (rotate s (orientation p)) (pos_x p) (pos_y p))
      (qpin_rotate_translate p x).
Proof.
  intros H Hx. rewrite qpin_rotate_translate_at_0 by exact H. rewrite H.
  unfold translate, rotate. cbn [pts]. rewrite rot_opp_0.
  replace (shift (- pos_x p) (- pos_y p) (fst x + pos_x p, snd x + pos_y p))
    with x; [exact Hx|].
  destruct x as [a b]. unfold shift. cbn [fst snd]. f_equal; ring.
Qed.

(** At [orientation = 0], wherever the qubit is placed, both points of
    every pin lie on the line the pin belongs to: the flux pin on the
    registered flux path, the charge pin on the registered [cl] box, the
    readout pin on the registered readout path.  Each line is taken on
    options its builders accept. *)
Theorem pins_on_lines_at_orientation_0 (p : Options) :
  orientation p = 0 ->
  (exists (st : QComponent) (pn : Pin) (line : Shape),
     build (make_flux_bias_line p) = Ok st /\ pins st = [pn] /\
     pin_name pn = "Flux bias line" /\
     shape_named path "path" st = Some line /\
     Forall (pts line) (pin_points pn)) /\
  (charge_ok p ->
   exists (st : QComponent) (pn : Pin) (cl : Shape),
     build (make_charge_line p) = Ok st /\ pins st = [pn] /\
     pin_name pn = "Charge line" /\
     shape_named poly "cl" st = Some cl /\
     Forall (pts cl) (pin_points pn)) /\
  (readout_ok p ->
   exists (st : QComponent) (pn : Pin) (line : Shape),
     build (make_readout_line p) = Ok st /\ pins st = [pn] /\
     pin_name pn = "Readout line" /\
     shape_named path "path" st = Some line /\
     Forall (pts line) (pin_points pn)).
Proof.
  intros H0.
  split; [|split; [intros (C1 & C2 & C3 & C4) | intros (R1 & R2 & R3 & R4)]].
  - unfold build, make_flux_bias_line, core.bind, add_qgeometry, add_pin.
    cbn [rotate_list translate_list map qgeometry pins fst snd existsb app empty].
    eexists. eexists. eexists.
    split; [reflexivity|]. split; [reflexivity|]. split; [reflexivity|].
    split; [reflexivity|].
    cbn [q_shape snd pin_points].
    apply Forall_cons; [|apply Forall_cons; [|apply Forall_nil]].
    + apply pts_qpin_at_0; [exact H0|].
      cbn [pts on_path]. right. right. right. left.
      exists 0. cbn [fst snd]. repeat split; lra.
    + apply pts_qpin_at_0; [exact H0|].
      cbn [pts on_path]. right. right. right. left.
      exists 1. cbn [fst snd]. repeat split; lra.
  - unfold build, make_charge_line, core.bind, lift, add_qgeometry, add_pin.
    cbn zeta.
    rewrite !box_ok by lra.
    cbn [rotate_list translate_list map qgeometry pins fst snd existsb app empty].
    eexists. eexists. eexists.
    split; [reflexivity|]. split; [reflexivity|]. split; [reflexivity|].
    split; [reflexivity|].
    cbn [q_shape snd pin_points].
    apply Forall_cons; [|apply Forall_cons; [|apply Forall_nil]].
    + apply pts_qpin_at_0; [exact H0|].
      cbn [pts fst snd].
      unfold Rmin, Rmax. repeat destruct (Rle_dec _ _); repeat split; lra.
    + apply pts_qpin_at_0; [exact H0|].
      cbn [pts fst snd].
      unfold Rmin, Rmax. repeat destruct (Rle_dec _ _); repeat split; lra.
  - unfold build, make_readout_line, core.bind, lift, add_qgeometry, add_pin.
    rewrite !rectangle_ok by assumption.
    cbn [rotate_list translate_list map qgeometry pins fst snd existsb app empty].
    eexists. eexists. eexists.
    split; [reflexivity|]. split; [reflexivity|]. split; [reflexivity|].
    split; [reflexivity|].
    cbn [q_shape snd pin_points].
    apply Forall_cons; [|apply Forall_cons; [|apply Forall_nil]].
    + apply pts_qpin_at_0; [exact H0|].
      cbn [pts on_path]. left.
      exists 1. cbn [fst snd]. repeat split; lra.
    + apply pts_qpin_at_0; [exact H0|].
      cbn [pts on_path]. left.
      exists 0. cbn [fst snd]. repeat split; lra.
Qed.

(** The default pocket with [cl_sep = 0.3], moved to (1, 2): all three
    pins. *)
Lemma pins_on_lines_at_orientation_0_default :
  let p := with_cl_sep 0.3 (with_placement 0 1 2 default_options) in
  (exists (st : QComponent) (pn : Pin) (line : Shape),
     build (make_flux_bias_line p) = Ok st /\ pins st = [pn] /\
     pin_name pn = "Flux bias line" /\
     shape_named path "path" st = Some line /\
     Forall (pts line) (pin_points pn)) /\
  (exists (st : QComponent) (pn : Pin) (cl : Shape),
     build (make_charge_line p) = Ok st /\ pins st = [pn] /\
     pin_name pn = "Charge line" /\
     shape_named poly "cl" st = Some cl /\
     Forall (pts cl) (pin_points pn)) /\
  (exists (st : QComponent) (pn : Pin) (line : Shape),
     build (make_readout_line p) = Ok st /\ pins st = [pn] /\
     pin_name pn = "Readout line" /\
     shape_named path "path" st = Some line /\
     Forall (pts line) (pin_points pn)).
Proof.
  destruct (pins_on_lines_at_orientation_0
              (with_cl_sep 0.3 (with_placement 0 1 2 default_options)) eq_refl)
    as (F & C & R).
  split; [exact F|]. split.
  - apply C. unfold charge_ok. simpl. repeat split; lra.
  - apply R. unfold readout_ok. simpl. repeat split; lra.
Defined.

End PinsOnLines.

(** ** The frame as a region *)

Section FrameRegion.

Import draw core Frame.

Ltac minmax_by_lra :=
  repeat match goal with
    | |- context [Rmax ?a ?b] =>
        first [ rewrite (Rmax_left a b) by lra
              | rewrite (Rmax_right a b) by lra ]
    | |- context [Rmin ?a ?b] =>
        first [ rewrite (Rmin_left a b) by lra
              | rewrite (Rmin_right a b) by lra ]
    end.

(** With [frame_w = frame_h = 9] the frame is closed: whatever the line
    width and the placement, the registered shape covers every point of
    the border of the 9 by 9 square. *)
Theorem frame_covers_border (p : Options) (b : point) :
  frame_w p = 9 -> frame_h p = 9 -> 0 < f_width p ->
  ((fst b = 4.5 \/ fst b = -4.5) /\ -4.5 <= snd b <= 4.5) \/
  ((snd b = 4.5 \/ snd b = -4.5) /\ -4.5 <= fst b <= 4.5) ->
  exists q : QGeometry,
    build (make p) = Ok (mkQComponent [q] []) /\
    pts (q_shape q) (place (orientation p) (pos_x p) (pos_y p) b).
Proof.
  intros Hw Hh Hf Hb.
  eexists. split.
  - apply frame_make_runs; lra.
  - cbn [q_shape].
    apply (proj2 (pts_placed_image _ (orientation p) (pos_x p) (pos_y p) b)).
    rewrite Hw, Hh. cbn [pts].
    destruct Hb as [[[Hx|Hx] Hy]|[[Hy|Hy] Hx]].
    + right. left. rewrite Hx. unfold Rmin, Rmax.
      repeat destruct (Rle_dec _ _); repeat split; lra.
    + right. right. left. rewrite Hx. unfold Rmin, Rmax.
      repeat destruct (Rle_dec _ _); repeat split; lra.
    + left. rewrite Hy. unfold Rmin, Rmax.
      repeat destruct (Rle_dec _ _); repeat split; lra.
    + right. right. right. left. rewrite Hy. unfold Rmin, Rmax.
      repeat destruct (Rle_dec _ _); repeat split; lra.
Qed.

(** The corner (4.5, 4.5) of the default frame turned by 30 degrees. *)
Lemma frame_covers_border_default :
  exists q : QGeometry,
    build (make (default_options 30 1 2 1)) = Ok (mkQComponent [q] []) /\
    pts (q_shape q) (place 30 1 2 (4.5, 4.5)).
Proof.
  apply (frame_covers_border (default_options 30 1 2 1) (4.5, 4.5)).
  - reflexivity.
  - reflexivity.
  - simpl. lra.
  - left. simpl. split; [left; reflexivity | lra].
Defined.

(** With [frame_w] and [frame_h] both below 9 the frame is open at its
    corners: the border corner (4.5, 4.5) is not covered, at any
    placement. *)
Theorem frame_corner_open (p : Options) :
  0 < frame_w p < 9 -> 0 < frame_h p < 9 -> 0 < f_width p < 18 ->
  exists q : QGeometry,
    build (make p) = Ok (mkQComponent [q] []) /\
    ~ pts (q_shape q) (place (orientation p) (pos_x p) (pos_y p) (4.5, 4.5)).
Proof.
  intros Hw Hh Hf.
  eexists. split.
  - apply frame_make_runs; lra.
  - cbn [q_shape]. intros H.
    apply (proj1 (pts_placed_image _ (orientation p) (pos_x p) (pos_y p) (4.5, 4.5)))
      in H.
    cbn [pts fst snd] in H.
    unfold Rmin, Rmax in H.
    repeat destruct (Rle_dec _ _); intuition lra.
Qed.

(** An 8 by 8 frame of the default line width. *)
Lemma frame_corner_open_8 :
  exists q : QGeometry,
    build (make (mkOptions 8 8 0.07 0 0 0 1)) = Ok (mkQComponent [q] []) /\
    ~ pts (q_shape q) (place 0 0 0 (4.5, 4.5)).
Proof.
  apply (frame_corner_open (mkOptions 8 8 0.07 0 0 0 1)); simpl; lra.
Defined.

(** The area of the 9 by 9 frame for any line width [f] below 9, at any
    placement: four strips of 9 by [f] less four corner squares of side
    [f / 2]. *)
Theorem frame_area_any_width (p : Options) :
  frame_w p = 9 -> frame_h p = 9 -> 0 < f_width p < 9 ->
  exists q : QGeometry,
    build (make p) = Ok (mkQComponent [q] []) /\
    area (q_shape q)
    = Some (9 * f_width p * 2 + 9 * f_width p * 2
            - 4 * (f_width p / 2 * (f_width p / 2))).
Proof.
  intros Hw Hh Hf.
  eexists. split.
  - apply frame_make_runs; lra.
  - cbn [q_shape area as_rects as_rect option_map].
    rewrite Hw, Hh.
    f_equal. rewrite <- (frame_rects_area_any_width (f_width p) Hf).
    f_equal.
    minmax_by_lra.
    repeat (f_equal; try lra).
Qed.

(** A frame drawn with a 0.2 mm line. *)
Lemma frame_area_any_width_02 :
  exists q : QGeometry,
    build (make (mkOptions 9 9 0.2 0 0 0 1)) = Ok (mkQComponent [q] []) /\
    area (q_shape q)
    = Some (9 * 0.2 * 2 + 9 * 0.2 * 2 - 4 * (0.2 / 2 * (0.2 / 2))).
Proof.
  apply (frame_area_any_width (mkOptions 9 9 0.2 0 0 0 1)).
  - reflexivity.
  - reflexivity.
  - simpl. lra.
Defined.

End FrameRegion.

(** ** The markers as a region *)

Section MarkersRegion.

Import draw core Markers.

Ltac minmax_lra :=
  repeat match goal with
    | |- context [Rmax ?a ?b] =>
        first [ rewrite (Rmax_left a b) by lra
              | rewrite (Rmax_right a b) by lra ]
    | |- context [Rmin ?a ?b] =>
        first [ rewrite (Rmin_left a b) by lra
              | rewrite (Rmin_right a b) by lra ]
    end.

(** The two rows of [Markers.make], for positive sizes. *)
Lemma markers_make_runs (p : Options) :
  0 < marker_w p -> 0 < marker_h p -> 0 < markers_gap p ->
  build (make p)
  = Ok (mkQComponent
          [mkQGeometry poly "markers"
             (Translate
                (Rotate
                   (Union
                      [Box (pos_x p / 2 + marker_sep p - marker_w p / 2)
                           (pos_y p / 2 + marker_sep p - marker_h p / 2)
                           (pos_x p / 2 + marker_sep p + marker_w p / 2)
                           (pos_y p / 2 + marker_sep p + marker_h p / 2);
                       Box (pos_x p / 2 - marker_sep p - marker_w p / 2)
                           (pos_y p / 2 + marker_sep p - marker_h p / 2)
                           (pos_x p / 2 - marker_sep p + marker_w p / 2)
                           (pos_y p / 2 + marker_sep p + marker_h p / 2);
                       Box (pos_x p / 2 + marker_sep p - marker_w p / 2)
                           (pos_y p / 2 - marker_sep p - marker_h p / 2)
                           (pos_x p / 2 + marker_sep p + marker_w p / 2)
                           (pos_y p / 2 - marker_sep p + marker_h p / 2);
                       Box (pos_x p / 2 - marker_sep p - marker_w p / 2)
                           (pos_y p / 2 - marker_sep p - marker_h p / 2)
                           (pos_x p / 2 - marker_sep p + marker_w p / 2)
                           (pos_y p / 2 - marker_sep p + marker_h p / 2)])
                   (orientation p))
                (pos_x p / 2) (pos_y p / 2))
             (kw_layer (layer p) kw);
           mkQGeometry poly "markers_pk"
             (Translate
                (Rotate
                   (Box (pos_x p / 2 - markers_gap p / 2)
                        (pos_y p / 2 - markers_gap p / 2)
                        (pos_x p / 2 + markers_gap p / 2)
                        (pos_y p / 2 + markers_gap p / 2))
                   (orientation p))
                (pos_x p / 2) (pos_y p / 2))
             (kw_layer (layer p) (kw_subtract true kw))]
          []).
Proof.
  intros Hw Hh Hg.
  unfold build, make, core.bind, lift.
  rewrite !rectangle_ok by assumption.
  reflexivity.
Qed.

(** The four markers lie inside the pocket [markers_pk], at every
    orientation and position, when the pocket reaches beyond them:
    [marker_sep + marker_w / 2 <= markers_gap / 2], and the same for the
    height. *)
Theorem markers_inside_pocket (p : Options) :
  0 < marker_w p -> 0 < marker_h p -> 0 < markers_gap p ->
  0 <= marker_sep p ->
  marker_sep p + marker_w p / 2 <= markers_gap p / 2 ->
  marker_sep p + marker_h p / 2 <= markers_gap p / 2 ->
  exists qm qpk : QGeometry,
    build (make p) = Ok (mkQComponent [qm; qpk] []) /\
    q_name qm = "markers" /\ q_name qpk = "markers_pk" /\
    forall pt : point, pts (q_shape qm) pt -> pts (q_shape qpk) pt.
Proof.
  intros Hw Hh Hg Hs Hx Hy.
  eexists. eexists. split; [apply markers_make_runs; assumption|].
  split; [reflexivity|]. split; [reflexivity|].
  intros pt. cbn [q_shape pts].
  set (q := rot (- orientation p) (shift (- (pos_x p / 2)) (- (pos_y p / 2)) pt)).
  minmax_lra.
  intros [H|[H|[H|[H|[]]]]]; repeat split; lra.
Qed.

(** The default markers, at any placement. *)
Lemma markers_inside_pocket_default :
  exists qm qpk : QGeometry,
    build (make (mkOptions 1 2 0.04 0.02 0.02 0.2 30 1))
    = Ok (mkQComponent [qm; qpk] []) /\
    q_name qm = "markers" /\ q_name qpk = "markers_pk" /\
    forall pt : point, pts (q_shape qm) pt -> pts (q_shape qpk) pt.
Proof.
  apply (markers_inside_pocket (mkOptions 1 2 0.04 0.02 0.02 0.2 30 1));
    simpl; lra.
Defined.

(** At [orientation = 0] the markers sit around [(pos_x, pos_y)]: half of
    the position enters the rectangles and the other half the
    translation, so the registered [markers] shape covers exactly the four
    [marker_w] by [marker_h] rectangles centred at
    [(pos_x +- marker_sep, pos_y +- marker_sep)]. *)
Theorem markers_centres_at_orientation_0 (p : Options) :
  orientation p = 0 ->
  0 < marker_w p -> 0 < marker_h p -> 0 < markers_gap p ->
  exists qm qpk : QGeometry,
    build (make p) = Ok (mkQComponent [qm; qpk] []) /\
    forall pt : point,
      pts (q_shape qm) pt <->
      pts (Union
             [Box (pos_x p + marker_sep p - marker_w p / 2)
                  (pos_y p + marker_sep p - marker_h p / 2)
                  (pos_x p + marker_sep p + marker_w p / 2)
                  (pos_y p + marker_sep p + marker_h p / 2);
              Box (pos_x p - marker_sep p - marker_w p / 2)
                  (pos_y p + marker_sep p - marker_h p / 2)
                  (pos_x p - marker_sep p + marker_w p / 2)
                  (pos_y p + marker_sep p + marker_h p / 2);
              Box (pos_x p + marker_sep p - marker_w p / 2)
                  (pos_y p - marker_sep p - marker_h p / 2)
                  (pos_x p + marker_sep p + marker_w p / 2)
                  (pos_y p - marker_sep p + marker_h p / 2);
              Box (pos_x p - marker_sep p - marker_w p / 2)
                  (pos_y p - marker_sep p - marker_h p / 2)
                  (pos_x p - marker_sep p + marker_w p / 2)
                  (pos_y p - marker_sep p + marker_h p / 2)]) pt.
Proof.
  intros H0 Hw Hh Hg.
  eexists. eexists. split; [apply markers_make_runs; assumption|].
  intros pt. cbn [q_shape pts]. rewrite H0, rot_opp_0.
  unfold shift. cbn [fst snd].
  minmax_lra.
  split; intros [H|[H|[H|[H|[]]]]];
    [ left | right; left | right; right; left | right; right; right; left
    | left | right; left | right; right; left | right; right; right; left ];
    repeat split; lra.
Qed.

(** The default markers at (1, 2): the centre (1.04, 2.04) is covered. *)
Lemma markers_centres_at_orientation_0_default :
  exists qm qpk : QGeometry,
    build (make (mkOptions 1 2 0.04 0.02 0.02 0.2 0 1))
    = Ok (mkQComponent [qm; qpk] []) /\
    pts (q_shape qm) (1.04, 2.04).
Proof.
  destruct (markers_centres_at_orientation_0 (mkOptions 1 2 0.04 0.02 0.02 0.2 0 1))
    as (qm & qpk & E & H); [reflexivity | simpl; lra | simpl; lra | simpl; lra |].
  exists qm, qpk. split; [exact E|].
  apply H. cbn [pts]. left. simpl.
  unfold Rmin, Rmax. repeat destruct (Rle_dec _ _); repeat split; lra.
Defined.

(** The area of the registered [markers] shape is [4 * marker_w *
    marker_h] when the markers do not overlap
    ([marker_w / 2 <= marker_sep] and [marker_h / 2 <= marker_sep]), at
    every orientation and position. *)
Theorem markers_area (p : Options) :
  0 < marker_w p -> 0 < marker_h p -> 0 < markers_gap p ->
  marker_w p / 2 <= marker_sep p -> marker_h p / 2 <= marker_sep p ->
  exists qm qpk : QGeometry,
    build (make p) = Ok (mkQComponent [qm; qpk] []) /\
    area (q_shape qm) = Some (4 * marker_w p * marker_h p).
Proof.
  intros Hw Hh Hg Hx Hy.
  eexists. eexists. split; [apply markers_make_runs; assumption|].
  cbn [q_shape area as_rects as_rect option_map].
  f_equal.
  unfold rects_area, rects_area_upto, rect_area, rect_inter.
  cbn [List.length map x0 y0 x1 y1].
  minmax_lra. nra.
Qed.

(** The default markers. *)
Lemma markers_area_default :
  exists qm qpk : QGeometry,
    build (make (default_options 0 1)) = Ok (mkQComponent [qm; qpk] []) /\
    area (q_shape qm) = Some (4 * 0.02 * 0.02).
Proof.
  apply (markers_area (default_options 0 1)); simpl; lra.
Defined.

End MarkersRegion.

(** ** The rows of [JunctionArray] *)

Section JunctionArrayRows.

Import draw core JunctionArray.

Lemma junc_yoff_at_INR (inc : R) (k : nat) : junc_yoff_at inc k = INR k * inc.
Proof.
  induction k as [|k IH].
  - simpl. ring.
  - cbn [junc_yoff_at]. rewrite IH, S_INR. ring.
Qed.

(** One run of the loop from index [a], whatever [n_junction] is: a pad
    row at every index, a junction row at every index other than
    [n_junction], and nothing else. *)
Lemma jj_loop_rows (p : Options) :
  forall (k a : nat) (st : QComponent),
    exists rows : list QGeometry,
      jj_loop p (jj_pad_placed p) (jj_rect_local p) (seq a k)
        (junc_yoff_at (jj_y_increment p) a) st
      = Ok (tt, mkQComponent (qgeometry st ++ rows)%list (pins st)) /\
      map name_shape (filter (fun q => Kind_eqb (q_kind q) poly) rows)
      = map (fun i => (jj_pad_name i, jj_pad_shape p i)) (seq a k) /\
      map name_shape (filter (fun q => Kind_eqb (q_kind q) junction) rows)
      = map (fun i => (("rect_jj_" ++ format_d i)%string, rect_jj_shape p i))
          (filter (jj_has_junction p) (seq a k)) /\
      filter (fun q => Kind_eqb (q_kind q) path) rows = [].
Proof.
  induction k as [|k IH]; intros a st.
  - exists []. cbn [seq jj_loop ret]. rewrite app_nil_r.
    destruct st. repeat split.
  - cbn [seq jj_loop]. unfold core.bind at 1.
    unfold add_qgeometry at 1. cbn [map fst snd qgeometry pins].
    unfold core.bind at 1.
    cbn [filter]. unfold jj_has_junction at 1.
    change (junc_yoff_at (jj_y_increment p) a
            + (array_pad_y (array_unit p) + array_gap_y (array_unit p)))
      with (junc_yoff_at (jj_y_increment p) (S a)).
    destruct (Req_dec_T (INR a) (n_junction (array_unit p))) as [He|Hne].
    + cbn [ret qgeometry pins].
      match goal with
      | |- context [jj_loop p _ _ (seq (S a) k) _ ?st'] =>
          destruct (IH (S a) st') as (rows & E & Np & Nj & Nq)
      end.
      rewrite E. cbn [qgeometry pins].
      eexists. split.
      * rewrite <- !app_assoc. reflexivity.
      * cbn [app filter q_kind Kind_eqb map name_shape q_name q_shape].
        rewrite Np, Nj, Nq. repeat split.
    + unfold add_qgeometry at 1. cbn [map fst snd qgeometry pins].
      match goal with
      | |- context [jj_loop p _ _ (seq (S a) k) _ ?st'] =>
          destruct (IH (S a) st') as (rows & E & Np & Nj & Nq)
      end.
      rewrite E. cbn [qgeometry pins].
      eexists. split.
      * rewrite <- !app_assoc. reflexivity.
      * cbn [app filter q_kind Kind_eqb map name_shape q_name q_shape].
        rewrite Np, Nj, Nq. repeat split.
Qed.

(** [make_jj_array] for any [n_junction]: the loop runs over
    [range(int(n_junction + 1))]. *)
Lemma make_jj_array_rows (p : Options) :
  array_ok p ->
  let m := Z.to_nat (int (n_junction (array_unit p) + 1)) in
  exists rows : list QGeometry,
    build (make_jj_array p) = Ok (mkQComponent rows []) /\
    map name_shape (filter (fun q => Kind_eqb (q_kind q) poly) rows)
    = map (fun i => (jj_pad_name i, jj_pad_shape p i)) (seq 0 m) /\
    map name_shape (filter (fun q => Kind_eqb (q_kind q) junction) rows)
    = map (fun i => (("rect_jj_" ++ format_d i)%string, rect_jj_shape p i))
        (filter (jj_has_junction p) (seq 0 m)) /\
    filter (fun q => Kind_eqb (q_kind q) path) rows = [].
Proof.
  intros [Hx Hy] m.
  destruct (jj_loop_rows p m 0%nat empty) as (rows & E & Np & Nj & Nq).
  exists rows. split; [|repeat split; assumption].
  unfold build, make_jj_array. unfold core.bind at 1. unfold lift.
  rewrite box_ok by lra.
  change (match jj_loop p (jj_pad_placed p) (jj_rect_local p) (seq 0 m)
                  (junc_yoff_at (jj_y_increment p) 0) empty with
          | Ok (_, st) => Ok st
          | Raise e => Raise e
          end = Ok (mkQComponent rows [])).
  rewrite E. reflexivity.
Qed.

Lemma has_junction_below (p : Options) (n : nat) :
  n_junction (array_unit p) = INR n ->
  filter (jj_has_junction p) (seq 0 (S n)) = seq 0 n.
Proof.
  intros Hn.
  assert (G : forall k, (k <= n)%nat ->
                filter (jj_has_junction p) (seq 0 k) = seq 0 k).
  { induction k as [|k IH]; intros Hk; [reflexivity|].
    rewrite seq_S, filter_app, IH by lia. cbn [filter Nat.add].
    unfold jj_has_junction.
    destruct (Req_dec_T (INR k) (n_junction (array_unit p))) as [He|_];
      [|reflexivity].
    rewrite Hn in He. apply INR_eq in He. lia. }
  rewrite seq_S, filter_app, G by lia. cbn [filter Nat.add].
  unfold jj_has_junction.
  destruct (Req_dec_T (INR n) (n_junction (array_unit p))) as [_|Hne];
    [apply app_nil_r|].
  exfalso. apply Hne. symmetry. exact Hn.
Qed.

(** The pads are stacked along the y axis of the design whatever the
    orientation: for a pad of positive width and height, [jj_pad_idx] is
    [jj_pad_0] moved by [(0, idx * (array_pad_y + array_gap_y))]. *)
Theorem jj_pads_stack_along_y (p : Options) (n : nat) :
  n_junction (array_unit p) = INR n ->
  array_ok p ->
  exists st : QComponent,
    build (make_jj_array p) = Ok st /\
    map name_shape (entries_of poly st)
    = map (fun i => (jj_pad_name i, jj_pad_shape p i)) (seq 0 (n + 1)) /\
    forall (idx : nat) (pt : point),
      pts (jj_pad_shape p idx) pt <->
      pts (jj_pad_shape p 0)
          (fst pt,
           snd pt - INR idx * (array_pad_y (array_unit p)
                               + array_gap_y (array_unit p))).
Proof.
  intros Hn A.
  destruct (make_jj_array_rows p A) as (rows & E & Np & _).
  rewrite Hn, int_INR_succ, Nat2Z.id in Np.
  exists (mkQComponent rows []). split; [exact E|].
  split.
  - unfold entries_of. cbn [qgeometry].
    replace (n + 1)%nat with (S n) by lia. exact Np.
  - intros idx pt. unfold jj_pad_shape, translate. cbn [pts].
    rewrite junc_yoff_at_INR. cbn [junc_yoff_at].
    unfold jj_y_increment.
    match goal with
    | |- pts ?s ?a <-> pts ?s ?b => replace b with a; [reflexivity|]
    end.
    unfold shift. cbn [fst snd]. f_equal; ring.
Qed.

(** The default array turned by 90 degrees: its eleven pads, and its
    second pad at the point (0, 0.06). *)
Lemma jj_pads_stack_along_y_default :
  exists st : QComponent,
    build (make_jj_array (default_options 90 0 0 1)) = Ok st /\
    map name_shape (entries_of poly st)
    = map (fun i => (jj_pad_name i, jj_pad_shape (default_options 90 0 0 1) i))
        (seq 0 (10 + 1)) /\
    (pts (jj_pad_shape (default_options 90 0 0 1) 1) (0, 0.06) <->
     pts (jj_pad_shape (default_options 90 0 0 1) 0)
         (fst (0, 0.06), snd (0, 0.06) - INR 1 * (0.05 + 0.01))).
Proof.
  destruct (jj_pads_stack_along_y (default_options 90 0 0 1) 10)
    as (st & E & N & H).
  - simpl. lra.
  - unfold array_ok. simpl. split; lra.
  - exists st. split; [exact E|]. split; [exact N|].
    exact (H 1%nat (0, 0.06)).
Defined.

End JunctionArrayRows.

(** ** The array at [orientation = 0], and odd values of [n_junction] *)

Section JunctionArrayRegion.

Import draw core JunctionArray.

Lemma int_INR (n : nat) : int (INR n) = Z.of_nat n.
Proof.
  unfold int. destruct (Rle_dec 0 (INR n)) as [_|H].
  - apply Int_part_INR.
  - exfalso. apply H, pos_INR.
Qed.

(** At [orientation = 0], for a pad of positive width and height, every
    junction line bridges two neighbouring pads: the lower end of
    [rect_jj_idx] lies on the top edge of [jj_pad_idx] and its upper end on
    the bottom edge of [jj_pad_(idx+1)], wherever the array is placed. *)
Theorem junctions_bridge_pads (p : Options) (n : nat) :
  orientation p = 0 ->
  n_junction (array_unit p) = INR n ->
  array_ok p ->
  exists st : QComponent,
    build (make_jj_array p) = Ok st /\
    map name_shape (entries_of poly st)
    = map (fun i => (jj_pad_name i, jj_pad_shape p i)) (seq 0 (n + 1)) /\
    map name_shape (entries_of junction st)
    = map (fun i => (("rect_jj_" ++ format_d i)%string, rect_jj_shape p i))
        (seq 0 n) /\
    forall idx : nat,
      let u := array_unit p in
      let y := INR idx * (array_pad_y u + array_gap_y u) in
      let lo := (pos_x p, pos_y p + array_pad_y u / 2 + y) in
      let hi := (pos_x p, pos_y p + array_pad_y u / 2 + array_gap_y u + y) in
      pts (rect_jj_shape p idx) lo /\ pts (jj_pad_shape p idx) lo /\
      pts (rect_jj_shape p idx) hi /\ pts (jj_pad_shape p (S idx)) hi.
Proof.
  intros H0 Hn A.
  destruct (make_jj_array_rows p A) as (rows & E & Np & Nj & _).
  rewrite Hn, int_INR_succ, Nat2Z.id in Np, Nj.
  rewrite (has_junction_below p n Hn) in Nj.
  exists (mkQComponent rows []). split; [exact E|].
  unfold entries_of. cbn [qgeometry].
  replace (n + 1)%nat with (S n) by lia.
  split; [exact Np|]. split; [exact Nj|].
  intros idx. cbn zeta.
  unfold rect_jj_shape, jj_pad_shape, jj_rect_local, jj_pad_placed,
    translate, rotate, box.
  cbn [pts on_path]. rewrite H0, !rot_opp_0, !junc_yoff_at_INR, S_INR.
  unfold jj_y_increment, shift. cbn [fst snd].
  split; [|split; [|split]].
  - left. exists 0. cbn [fst snd]. repeat split; lra.
  - unfold Rmin, Rmax. repeat destruct (Rle_dec _ _); repeat split; lra.
  - left. exists 1. cbn [fst snd]. repeat split; lra.
  - unfold Rmin, Rmax. repeat destruct (Rle_dec _ _); repeat split; lra.
Qed.

(** The default array at (1, 2): its ten junctions, the first of which
    starts on the top edge of the first pad. *)
Lemma junctions_bridge_pads_default :
  exists st : QComponent,
    build (make_jj_array (default_options 0 1 2 1)) = Ok st /\
    map name_shape (entries_of junction st)
    = map (fun i => (("rect_jj_" ++ format_d i)%string,
                     rect_jj_shape (default_options 0 1 2 1) i))
        (seq 0 10) /\
    pts (rect_jj_shape (default_options 0 1 2 1) 0)
        (1, 2 + 0.05 / 2 + 0 * (0.05 + 0.01)) /\
    pts (jj_pad_shape (default_options 0 1 2 1) 0)
        (1, 2 + 0.05 / 2 + 0 * (0.05 + 0.01)).
Proof.
  destruct (junctions_bridge_pads (default_options 0 1 2 1) 10)
    as (st & E & _ & Nj & H).
  - reflexivity.
  - simpl. lra.
  - unfold array_ok. simpl. split; lra.
  - exists st. split; [exact E|]. split; [exact Nj|].
    destruct (H 0%nat) as (A & B & _). split; [exact A | exact B].
Defined.

(** At [orientation = 0] the ground etch of [make] encloses every pad of
    the array, when the pad sizes are positive and the gaps are not
    negative. *)
Theorem ground_etch_encloses_pads (p : Options) (n : nat) :
  let u := array_unit p in
  orientation p = 0 ->
  n_junction u = INR n ->
  0 < array_pad_x u -> 0 < array_pad_y u -> 0 <= array_gap_y u ->
  0 <= ground_gap_x p -> 0 <= ground_gap_y p ->
  exists (rows : list QGeometry) (g : QGeometry),
    build (make p) = Ok (mkQComponent (rows ++ [g])%list []) /\
    q_kind g = poly /\ q_name g = "ground_etch" /\
    subtract (q_attrs g) = true /\
    map name_shape (filter (fun q => Kind_eqb (q_kind q) poly) rows)
    = map (fun i => (jj_pad_name i, jj_pad_shape p i)) (seq 0 (n + 1)) /\
    forall (idx : nat) (pt : point),
      (idx <= n)%nat -> pts (jj_pad_shape p idx) pt -> pts (q_shape g) pt.
Proof.
  intros u H0 Hn Hx Hy Hg Hgx Hgy. subst u.
  destruct (make_jj_array_rows p (conj Hx Hy)) as (rows & E & Np & _).
  rewrite Hn, int_INR_succ, Nat2Z.id in Np.
  unfold build in E.
  destruct (make_jj_array p empty) as [[[] st]|e] eqn:E1; [|discriminate].
  injection E as ->.
  assert (Hm : 0 <= INR n) by apply pos_INR.
  assert (Hpy : 0 <= INR n * array_pad_y (array_unit p)) by nra.
  assert (Hgp : 0 <= INR n * array_gap_y (array_unit p)) by nra.
  exists rows. eexists. split.
  - unfold build, make, core.bind. rewrite E1.
    unfold make_buffer_ground, core.bind, lift. cbn zeta.
    rewrite box_ok;
      [ | lra
        | rewrite Hn, int_INR_succ, int_INR, <- !INR_IZR_INZ, S_INR; lra ].
    unfold add_qgeometry. cbn [map fst snd qgeometry pins].
    reflexivity.
  - split; [reflexivity|]. split; [reflexivity|]. split; [reflexivity|].
    split; [replace (n + 1)%nat with (S n) by lia; exact Np|].
    intros idx pt Hi.
    assert (Hidx : 0 <= INR idx <= INR n) by (split; [apply pos_INR | apply le_INR; exact Hi]).
    unfold jj_pad_shape, jj_pad_placed, translate, rotate.
    cbn [q_shape snd pts].
    rewrite H0, !rot_opp_0, junc_yoff_at_INR, Hn, int_INR_succ, int_INR.
    rewrite <- !INR_IZR_INZ, S_INR.
    unfold jj_y_increment, shift. cbn [fst snd].
    set (u := array_unit p) in *.
    set (k := INR idx) in *. set (m := INR n) in *.
    assert (Hk : k * (array_pad_y u + array_gap_y u)
                 <= m * (array_pad_y u + array_gap_y u)) by nra.
    assert (Hk0 : 0 <= k * (array_pad_y u + array_gap_y u)) by nra.
    set (yk := k * (array_pad_y u + array_gap_y u)) in *.
    assert (Em : (m + 1) * array_pad_y u + m * array_gap_y u
                 = m * (array_pad_y u + array_gap_y u) + array_pad_y u) by ring.
    set (ym := m * (array_pad_y u + array_gap_y u)) in *.
    rewrite Em.
    unfold Rmin, Rmax.
    repeat destruct (Rle_dec _ _); intros [[? ?] [? ?]]; repeat split; lra.
Qed.

(** The default array at (1, 2). *)
Lemma ground_etch_encloses_pads_default :
  exists (rows : list QGeometry) (g : QGeometry),
    build (make (default_options 0 1 2 1)) = Ok (mkQComponent (rows ++ [g])%list []) /\
    q_name g = "ground_etch" /\
    forall (idx : nat) (pt : point),
      (idx <= 10)%nat ->
      pts (jj_pad_shape (default_options 0 1 2 1) idx) pt -> pts (q_shape g) pt.
Proof.
  destruct (ground_etch_encloses_pads (default_options 0 1 2 1) 10)
    as (rows & g & E & _ & N & _ & _ & H);
    try (simpl; lra); try reflexivity.
  exists rows, g. repeat split; assumption.
Defined.

End JunctionArrayRegion.

Section JunctionArrayEdges.

Import draw core JunctionArray.

(** When [n_junction] is not a whole number the test [idx != n_junction]
    never fails: for a pad of positive width and height, [make_jj_array]
    registers as many junctions as pads, [int(n_junction + 1)] of each,
    the last junction reaching beyond the last pad. *)
Theorem jj_array_fractional_count (p : Options) :
  (forall i : nat, INR i <> n_junction (array_unit p)) ->
  array_ok p ->
  let m := Z.to_nat (int (n_junction (array_unit p) + 1)) in
  exists st : QComponent,
    build (make_jj_array p) = Ok st /\
    map q_name (entries_of poly st) = map jj_pad_name (seq 0 m) /\
    map q_name (entries_of junction st)
    = map (fun i => ("rect_jj_" ++ format_d i)%string) (seq 0 m).
Proof.
  intros Hf A m.
  destruct (make_jj_array_rows p A) as (rows & E & Np & Nj & _).
  fold m in Np, Nj.
  assert (F : forall l : list nat, filter (jj_has_junction p) l = l).
  { induction l as [|i l IH]; [reflexivity|].
    cbn [filter]. unfold jj_has_junction at 1.
    destruct (Req_dec_T (INR i) (n_junction (array_unit p))) as [He|_].
    - exfalso. exact (Hf i He).
    - rewrite IH. reflexivity. }
  rewrite F in Nj.
  exists (mkQComponent rows []). split; [exact E|].
  unfold entries_of. cbn [qgeometry].
  split.
  - apply (f_equal (map fst)) in Np. rewrite !map_map in Np. exact Np.
  - apply (f_equal (map fst)) in Nj. rewrite !map_map in Nj. exact Nj.
Qed.

(** [n_junction = 2.5]: three pads and three junctions. *)
Lemma jj_array_fractional_count_2_5 :
  exists st : QComponent,
    build (make_jj_array (with_n_junction 2.5 (default_options 0 0 0 1))) = Ok st /\
    map q_name (entries_of poly st) = map jj_pad_name (seq 0 3) /\
    map q_name (entries_of junction st)
    = map (fun i => ("rect_jj_" ++ format_d i)%string) (seq 0 3).
Proof.
  assert (M : Z.to_nat (int (n_junction (array_unit
                 (with_n_junction 2.5 (default_options 0 0 0 1))) + 1)) = 3%nat).
  { cbn [n_junction array_unit with_n_junction]. unfold int.
    destruct (Rle_dec 0 (2.5 + 1)) as [_|H]; [|exfalso; lra].
    assert (I : 3%Z = Int_part (2.5 + 1)) by (apply Int_part_spec; lra).
    rewrite <- I. reflexivity. }
  rewrite <- M.
  apply (jj_array_fractional_count (with_n_junction 2.5 (default_options 0 0 0 1))).
  - intros i H. cbn [n_junction array_unit with_n_junction] in H.
    assert (H2 : INR (2 * i) = INR 5).
    { rewrite mult_INR. simpl. lra. }
    apply INR_eq in H2. lia.
  - unfold array_ok. simpl. split; lra.
Defined.

(** A negative [n_junction] gives an empty loop: once the pad is drawn
    (it has a positive width and height), [make_jj_array] registers
    nothing at all. *)
Theorem jj_array_negative_empty (p : Options) :
  n_junction (array_unit p) < 0 ->
  array_ok p ->
  build (make_jj_array p) = Ok empty.
Proof.
  intros Hn [Hx Hy].
  assert (M : Z.to_nat (int (n_junction (array_unit p) + 1)) = 0%nat).
  { unfold int.
    destruct (Rle_dec 0 (n_junction (array_unit p) + 1)) as [H|H].
    - assert (I : 0%Z = Int_part (n_junction (array_unit p) + 1))
        by (apply Int_part_spec; lra).
      rewrite <- I. reflexivity.
    - destruct (base_Int_part (- (n_junction (array_unit p) + 1))) as [B1 B2].
      assert (B3 : IZR (-1) < IZR (Int_part (- (n_junction (array_unit p) + 1))))
        by lra.
      apply lt_IZR in B3. lia. }
  unfold build, make_jj_array, range. unfold core.bind at 1. unfold lift.
  rewrite box_ok by lra.
  rewrite M. reflexivity.
Qed.

(** [n_junction = -1]. *)
Lemma jj_array_negative_empty_m1 :
  build (make_jj_array (with_n_junction (-1) (default_options 0 0 0 1))) = Ok empty.
Proof.
  apply (jj_array_negative_empty (with_n_junction (-1) (default_options 0 0 0 1))).
  - simpl. lra.
  - unfold array_ok. simpl. split; lra.
Defined.

End JunctionArrayEdges.

(** ** The pocket of [Tmon] *)

Section TmonPocket.

Import draw core Tmon.

Ltac box_in_box :=
  unfold Rmin, Rmax in *;
  repeat match goal with
    | |- context [Rle_dec ?a ?b] => destruct (Rle_dec a b)
    | H : context [Rle_dec ?a ?b] |- _ => destruct (Rle_dec a b)
    end;
  repeat split; lra.

(** The three rows of [Tmon.make_pocket], for sizes no rectangle
    rejects. *)
Lemma tmon_make_pocket_runs (p : Options) :
  pocket_ok p ->
  build (make_pocket p)
  = Ok (mkQComponent
          [mkQGeometry poly "tmon"
             (Translate
                (Rotate
                   (Union
                      [Box (0 - pad_head_width p / 2)
                           (pad_head_length p / 2 - pad_head_length p / 2)
                           (0 + pad_head_width p / 2)
                           (pad_head_length p / 2 + pad_head_length p / 2);
                       Box (0 - pad_arm_length p / 2) (0 - pad_arm_width p / 2)
                           (0 + pad_arm_length p / 2) (0 + pad_arm_width p / 2);
                       Disc (- pad_arm_length p / 2, 0) (palm_radius p / 2);
                       Disc (pad_arm_length p / 2, 0) (palm_radius p / 2)])
                   (orientation p))
                (pos_x p) (pos_y p))
             kw;
           mkQGeometry poly "pad_etch"
             (Translate
                (Rotate
                   (Union
                      [Box (0 - (pad_head_width p + 2 * pad_gap p) / 2)
                           (pad_head_length p / 2
                            - (pad_head_length p + 2 * jj_gap p) / 2)
                           (0 + (pad_head_width p + 2 * pad_gap p) / 2)
                           (pad_head_length p / 2
                            + (pad_head_length p + 2 * jj_gap p) / 2);
                       Box (0 - (pad_arm_length p + 2 * pad_gap p) / 2)
                           (0 - (pad_arm_width p + pad_gap p * 2) / 2)
                           (0 + (pad_arm_length p + 2 * pad_gap p) / 2)
                           (0 + (pad_arm_width p + pad_gap p * 2) / 2);
                       Disc (- pad_arm_length p / 2, 0) (palm_radius p * 1.5);
                       Disc (pad_arm_length p / 2, 0) (palm_radius p * 1.5)])
                   (orientation p))
                (pos_x p) (pos_y p))
             (kw_subtract true kw);
           mkQGeometry junction "rect_jj"
             (Translate
                (Rotate
                   (LineString [(0, pad_head_length p + jj_gap p);
                                (0, pad_head_length p)])
                   (orientation p))
                (pos_x p) (pos_y p))
             (kw_width (inductor_width p) kw)]
          []).
Proof.
  intros (H1 & H2 & H3 & H4 & H5 & H6 & H7 & H8).
  unfold build, make_pocket, core.bind, lift.
  rewrite !rectangle_ok by assumption.
  reflexivity.
Qed.

(** [Tmon.make_pocket] registers exactly three rows and no pin: [tmon], a
    poly added as conductor, [pad_etch], a poly registered with
    [subtract = True], and [rect_jj], a junction of width
    [inductor_width].  At every placement the conductor lies inside the
    etch when [pad_gap] and [jj_gap] are not negative. *)
Theorem tmon_inside_etch (p : Options) :
  pocket_ok p -> 0 <= pad_gap p -> 0 <= jj_gap p ->
  exists qt qe qj : QGeometry,
    build (make_pocket p) = Ok (mkQComponent [qt; qe; qj] []) /\
    (q_kind qt = poly /\ q_name qt = "tmon" /\
     subtract (q_attrs qt) = false) /\
    (q_kind qe = poly /\ q_name qe = "pad_etch" /\
     subtract (q_attrs qe) = true) /\
    (q_kind qj = junction /\ q_name qj = "rect_jj" /\
     core.width (q_attrs qj) = Some (inductor_width p)) /\
    forall pt : point, pts (q_shape qt) pt -> pts (q_shape qe) pt.
Proof.
  intros V Hg Hj.
  eexists. eexists. eexists.
  split; [apply tmon_make_pocket_runs; exact V|].
  split; [repeat split|]. split; [repeat split|]. split; [repeat split|].
  destruct V as (H1 & H2 & H3 & H4 & H5 & H6 & H7 & H8).
  intros pt. cbn [q_shape pts].
  set (q := rot (- orientation p) (shift (- pos_x p) (- pos_y p) pt)).
  cbn [fst snd].
  intros [H|[H|[H|[H|[]]]]].
  - left. clearbody q. destruct H as [[X1 X2] [Y1 Y2]]. box_in_box.
  - right. left. clearbody q. destruct H as [[X1 X2] [Y1 Y2]]. box_in_box.
  - right. right. left. destruct H as [Hd Hr].
    pose proof (Rle_0_sqr (palm_radius p)) as Hs. unfold Rsqr in Hs.
    split; lra.
  - right. right. right. left. destruct H as [Hd Hr].
    pose proof (Rle_0_sqr (palm_radius p)) as Hs. unfold Rsqr in Hs.
    split; lra.
Qed.

(** The default tmon, at (1, 2). *)
Lemma tmon_inside_etch_default :
  exists qt qe qj : QGeometry,
    build (make_pocket (default_options 1 2)) = Ok (mkQComponent [qt; qe; qj] []) /\
    (q_kind qt = poly /\ q_name qt = "tmon" /\
     subtract (q_attrs qt) = false) /\
    (q_kind qe = poly /\ q_name qe = "pad_etch" /\
     subtract (q_attrs qe) = true) /\
    (q_kind qj = junction /\ q_name qj = "rect_jj" /\
     core.width (q_attrs qj) = Some 0.01) /\
    forall pt : point, pts (q_shape qt) pt -> pts (q_shape qe) pt.
Proof.
  apply (tmon_inside_etch (default_options 1 2)).
  - unfold pocket_ok. simpl. repeat split; lra.
  - simpl. lra.
  - simpl. lra.
Defined.

(** The junction line of the tmon runs across the etch gap above the
    head: at every placement its lower end [(0, pad_head_length)] lies on
    the conductor and its upper end [(0, pad_head_length + jj_gap)] on the
    etch, both being points of the registered junction. *)
Theorem tmon_junction_spans_gap (p : Options) :
  pocket_ok p ->
  exists (st : QComponent) (tmon pad_etch rect_jj : Shape),
    build (make_pocket p) = Ok st /\
    shape_named poly "tmon" st = Some tmon /\
    shape_named poly "pad_etch" st = Some pad_etch /\
    shape_named junction "rect_jj" st = Some rect_jj /\
    let lo := place (orientation p) (pos_x p) (pos_y p) (0, pad_head_length p) in
    let hi := place (orientation p) (pos_x p) (pos_y p)
                (0, pad_head_length p + jj_gap p) in
    pts rect_jj lo /\ pts tmon lo /\ pts rect_jj hi /\ pts pad_etch hi.
Proof.
  intros V.
  eexists. eexists. eexists. eexists.
  split; [apply tmon_make_pocket_runs; exact V|].
  split; [reflexivity|]. split; [reflexivity|]. split; [reflexivity|].
  destruct V as (H1 & H2 & H3 & H4 & H5 & H6 & H7 & H8).
  cbn zeta.
  split; [|split; [|split]].
  - apply (proj2 (pts_placed_image _ _ _ _ _)).
    cbn [pts on_path]. left. exists 1. cbn [fst snd]. repeat split; lra.
  - apply (proj2 (pts_placed_image _ _ _ _ _)).
    cbn [pts fst snd]. left. unfold Rmin, Rmax.
    repeat destruct (Rle_dec _ _); repeat split; lra.
  - apply (proj2 (pts_placed_image _ _ _ _ _)).
    cbn [pts on_path]. left. exists 0. cbn [fst snd]. repeat split; lra.
  - apply (proj2 (pts_placed_image _ _ _ _ _)).
    cbn [pts fst snd]. left. unfold Rmin, Rmax.
    repeat destruct (Rle_dec _ _); repeat split; lra.
Qed.

(** The default tmon turned by 90 degrees at (1, 2). *)
Lemma tmon_junction_spans_gap_default :
  exists (st : QComponent) (tmon pad_etch rect_jj : Shape),
    build (make_pocket (mkOptions "main" 0.01 0.03 0.04 0.4 0.08 1 0.08 0.08 90 1 2))
    = Ok st /\
    shape_named poly "tmon" st = Some tmon /\
    shape_named poly "pad_etch" st = Some pad_etch /\
    shape_named junction "rect_jj" st = Some rect_jj /\
    pts rect_jj (place 90 1 2 (0, 0.4)) /\ pts tmon (place 90 1 2 (0, 0.4)) /\
    pts rect_jj (place 90 1 2 (0, 0.4 + 0.03)) /\
    pts pad_etch (place 90 1 2 (0, 0.4 + 0.03)).
Proof.
  apply (tmon_junction_spans_gap
           (mkOptions "main" 0.01 0.03 0.04 0.4 0.08 1 0.08 0.08 90 1 2)).
  unfold pocket_ok. simpl. repeat split; lra.
Defined.

End TmonPocket.
